(** * The LP APR update script: a shallow embedding

    The script computes liquidity-pool APRs from subgraph snapshots:
    [getBlockAtTimestamp], [getAprsForFarmGroup], [getAprsForStableFarm],
    [splitNormalAndStableFarmsReducer], [fetchAndUpdateLPsAPR] and
    [getFarmConfig].  Decimal arithmetic goes through bignumber.js with its
    default configuration (DECIMAL_PLACES = 20, ROUNDING_MODE = ROUND_HALF_UP),
    which is embedded first. *)

From Stdlib Require Import ZArith QArith Qpower Lia Ascii.
From stdpp Require Import gmap strings list fin_maps pretty.

Local Open Scope Z_scope.

(** ** bignumber.js values *)

Module BigNumber.

(** A finite BigNumber is a decimal: [mant / 10 ^ scale].  bignumber.js keeps
    its coefficient without trailing zeros; [normalize] does the same here, so
    that equal values are equal terms.  The sign of zero is not modelled. *)
Record decimal : Set := Dec { mant : Z; scale : nat }.

Inductive t : Set :=
| NaN
| Infinity (negative : bool)
| Fin (d : decimal).

#[global] Instance decimal_eq_dec : EqDecision decimal.
Proof. solve_decision. Defined.
#[global] Instance t_eq_dec : EqDecision t.
Proof. solve_decision. Defined.

Definition pow10 (n : nat) : Z := 10 ^ Z.of_nat n.

Fixpoint normalize_aux (m : Z) (s : nat) : decimal :=
  match s with
  | O => Dec m 0
  | S s' => if m mod 10 =? 0 then normalize_aux (m / 10) s' else Dec m s
  end.

Definition normalize (d : decimal) : decimal := normalize_aux (mant d) (scale d).

(** The rational a decimal stands for. *)
Definition to_Q (d : decimal) : Q := inject_Z (mant d) / inject_Z (pow10 (scale d)).

Definition of_Z (z : Z) : t := Fin (Dec z 0).

Definition zero : t := of_Z 0.

Definition is_neg (m : Z) : bool := m <? 0.

(** ROUND_HALF_UP: to the nearest neighbour, away from zero when equidistant.
    [round_div n d] is [n / d] rounded that way to an integer ([d <> 0]). *)
Definition round_div (n d : Z) : Z :=
  Z.sgn n * Z.sgn d * ((2 * Z.abs n + Z.abs d) / (2 * Z.abs d)).

(** [x.decimalPlaces(dp)]: at most [dp] decimal places, rounded with
    ROUNDING_MODE. *)
Definition round_dec (dp : nat) (d : decimal) : decimal :=
  if (scale d <=? dp)%nat then normalize d
  else normalize (Dec (round_div (mant d) (pow10 (scale d - dp))) dp).

Definition decimalPlaces (dp : nat) (x : t) : t :=
  match x with
  | Fin d => Fin (round_dec dp d)
  | _ => x
  end.

Definition sub_dec (a b : decimal) : decimal :=
  let s := Nat.max (scale a) (scale b) in
  normalize (Dec (mant a * pow10 (s - scale a) - mant b * pow10 (s - scale b)) s).

(** [x.minus(y)] is exact. *)
Definition minus (x y : t) : t :=
  match x, y with
  | NaN, _ | _, NaN => NaN
  | Infinity a, Infinity b => if Bool.eqb a b then NaN else Infinity a
  | Infinity a, Fin _ => Infinity a
  | Fin _, Infinity b => Infinity (negb b)
  | Fin a, Fin b => Fin (sub_dec a b)
  end.

Definition mul_dec (a b : decimal) : decimal :=
  normalize (Dec (mant a * mant b) (scale a + scale b)).

(** [x.times(y)] is exact. *)
Definition times (x y : t) : t :=
  match x, y with
  | NaN, _ | _, NaN => NaN
  | Infinity a, Infinity b => Infinity (xorb a b)
  | Infinity a, Fin d | Fin d, Infinity a =>
      if mant d =? 0 then NaN else Infinity (xorb a (is_neg (mant d)))
  | Fin a, Fin b => Fin (mul_dec a b)
  end.

(** DECIMAL_PLACES, the number of decimal places kept by a division. *)
Definition DECIMAL_PLACES : nat := 20.

Definition div_dec (a b : decimal) : decimal :=
  normalize (Dec (round_div (mant a * pow10 (scale b) * pow10 DECIMAL_PLACES)
                            (mant b * pow10 (scale a)))
                 DECIMAL_PLACES).

(** [x.dividedBy(y)] (alias [div]): rounded to DECIMAL_PLACES places with
    ROUNDING_MODE; division by zero gives an infinity, 0/0 gives NaN. *)
Definition dividedBy (x y : t) : t :=
  match x, y with
  | NaN, _ | _, NaN => NaN
  | Infinity _, Infinity _ => NaN
  | Infinity a, Fin d => Infinity (xorb a (is_neg (mant d)))
  | Fin _, Infinity _ => zero
  | Fin a, Fin b =>
      if mant b =? 0 then
        if mant a =? 0 then NaN else Infinity (is_neg (mant a))
      else if mant a =? 0 then zero
      else Fin (div_dec a b)
  end.

(** [x.pow(n)] for a non-negative integer [n]: exact (POW_PRECISION = 0). *)
Definition pow (x : t) (n : nat) : t :=
  match x with
  | NaN => NaN
  | Infinity a => match n with O => of_Z 1 | _ => Infinity (a && Nat.odd n) end
  | Fin d => Fin (normalize (Dec (mant d ^ Z.of_nat n) (scale d * n)))
  end.

(** [x.gt(y)] against a finite [y = 0]: false for NaN. *)
Definition gt0 (x : t) : bool :=
  match x with
  | NaN => false
  | Infinity a => negb a
  | Fin d => 0 <? mant d
  end.

(** *** [new BigNumber(string)]

    The constructor's decimal-literal grammar: an optional minus sign; then
    digits with an optional point and optional further digits, or a point
    and digits; then an optional exponent, e or E with an optional sign and
    digits.  Also the
    literals [Infinity], [-Infinity]; any other text is NaN (outside DEBUG
    mode the constructor does not throw).  The constructor's tolerance for
    surrounding white space, a leading [+] and the [0x]/[0b]/[0o] prefixes is
    left out: such text is NaN here. *)

Definition digit_of (a : Ascii.ascii) : option Z :=
  let n := Z.of_nat (Ascii.nat_of_ascii a) in
  if (48 <=? n) && (n <=? 57) then Some (n - 48) else None.

(** Reads the leading digits of [s] onto the accumulator: the value, the
    number of digits read and the rest of the text. *)
Fixpoint read_digits (s : string) (acc : Z) (n : nat) : Z * nat * string :=
  match s with
  | String a r =>
      match digit_of a with
      | Some d => read_digits r (10 * acc + d) (S n)
      | None => (acc, n, s)
      end
  | EmptyString => (acc, n, s)
  end.

(** The exponent part: [None] when malformed. *)
Definition read_exponent (s : string) : option Z :=
  match s with
  | EmptyString => Some 0
  | String a r =>
      if bool_decide (a = "e"%char) || bool_decide (a = "E"%char) then
        let '(neg, r1) :=
          match r with
          | String "-" r' => (true, r')
          | String "+" r' => (false, r')
          | _ => (false, r)
          end in
        match read_digits r1 0 0 with
        | (e, S _, EmptyString) => Some (if neg then - e else e)
        | _ => None
        end
      else None
  end.

Definition of_literal (s : string) : option decimal :=
  let '(neg, s1) :=
    match s with
    | String "-" r => (true, r)
    | _ => (false, s)
    end in
  let '(ip, ni, s2) := read_digits s1 0 0 in
  let '(m, nf, s3) :=
    match s2 with
    | String "." r => read_digits r ip 0
    | _ => (ip, O, s2)
    end in
  if (0 <? ni)%nat || (0 <? nf)%nat then
    match read_exponent s3 with
    | Some e =>
        let m := if neg then - m else m in
        let sc := Z.of_nat nf - e in
        Some (normalize (if sc <? 0 then Dec (m * 10 ^ (- sc)) 0
                         else Dec m (Z.to_nat sc)))
    | None => None
    end
  else None.

Definition of_string (s : string) : t :=
  match of_literal s with
  | Some d => Fin d
  | None =>
      if bool_decide (s = "Infinity") then Infinity false
      else if bool_decide (s = "-Infinity") then Infinity true
      else NaN
  end.

(** [new BigNumber(undefined)], as for a field the response does not carry. *)
Definition of_field (v : option string) : t :=
  match v with
  | Some s => of_string s
  | None => NaN
  end.

End BigNumber.

(** ** JavaScript helpers *)

(** A thrown error is carried as the text a template literal gives for it,
    its name and message: [new_Error m] for [new Error(m)]. *)
Inductive Result (A : Type) : Type :=
| Ok (a : A)
| Throw (msg : string).
Arguments Ok {A} a.
Arguments Throw {A} msg.

#[global] Instance Result_ret : MRet Result := fun _ a => Ok a.
#[global] Instance Result_bind : MBind Result := fun _ _ f m =>
  match m with
  | Ok a => f a
  | Throw e => Throw e
  end.

Definition new_Error (message : string) : string := "Error: " +:+ message.

Definition EOL : string := String (ascii_of_nat 10) EmptyString.

Definition is_space (a : ascii) : bool :=
  let n := nat_of_ascii a in
  ((9 <=? n) && (n <=? 13))%nat || (n =? 32)%nat.

Fixpoint skip_spaces (s : string) : string :=
  match s with
  | String a r => if is_space a then skip_spaces r else s
  | EmptyString => s
  end.

(** [parseInt(s, 10)]: leading white space, an optional sign, then the
    leading digits; [None] stands for NaN.  The result is a JavaScript number;
    the loss of precision above 2^53 is not modelled. *)
Definition parseInt (s : string) : option Z :=
  let s1 := skip_spaces s in
  let '(neg, s2) :=
    match s1 with
    | String "-" r => (true, r)
    | String "+" r => (false, r)
    | _ => (false, s1)
    end in
  match BigNumber.read_digits s2 0 0 with
  | (_, O, _) => None
  | (v, S _, _) => Some (if neg then - v else v)
  end.

Definition lower_ascii (a : ascii) : ascii :=
  let n := nat_of_ascii a in
  if ((65 <=? n) && (n <=? 90))%nat then ascii_of_nat (n + 32) else a.

(** [s.toLowerCase()] on ASCII text (LP addresses are hexadecimal). *)
Fixpoint toLowerCase (s : string) : string :=
  match s with
  | String a r => String (lower_ascii a) (toLowerCase r)
  | EmptyString => EmptyString
  end.

(** [chunk] of lodash: consecutive groups of [size] elements, the last one
    with what remains; no group for an empty list or a size below 1. *)
Fixpoint chunk_fuel {A} (fuel : nat) (l : list A) (size : nat) : list (list A) :=
  match fuel with
  | O => []
  | S fuel' =>
      match l with
      | [] => []
      | _ => take size l :: chunk_fuel fuel' (drop size l) size
      end
  end.

Definition chunk {A} (l : list A) (size : nat) : list (list A) :=
  match size with
  | O => []
  | _ => chunk_fuel (length l) l size
  end.

(** ** Data model of the script *)

Inductive ChainId : Set := BITGERT | DOGE | DOKEN | FUSE | XDC | BSC | CORE.

Definition chain_number (c : ChainId) : Z :=
  match c with
  | BITGERT => 32520
  | DOGE => 2000
  | DOKEN => 61916
  | FUSE => 122
  | XDC => 50
  | BSC => 56
  | CORE => 1116
  end.

#[global] Instance ChainId_eq_dec : EqDecision ChainId.
Proof. solve_decision. Defined.

Record SingleFarmResponse : Set := {
  id : string;
  reserveUSD : string;
  volumeUSD : string;
}.

Record FarmsResponse : Set := {
  farmsAtLatestBlock : list SingleFarmResponse;
  farmsOneWeekAgo : list SingleFarmResponse;
}.

(** The values of an [AprMap] are the decimals handed to [toNumber()]; the
    conversion to a double is not modelled. *)
Abbreviation AprMap := (gmap string BigNumber.t).

(** An element of [blocks] in the answer of the block-indexing subgraph. *)
Record BlockResponse : Set := { number : string }.

(** An element of [pairs] in the answer of the stable-swap subgraph; a missing
    field reads as [undefined]. *)
Record VirtualPriceEntry : Set := { virtualPrice : option string }.

Record VirtualPriceResponse : Set := {
  virtualPriceAtLatestBlock : list VirtualPriceEntry;
  virtualPriceOneDayAgo : list VirtualPriceEntry;
}.

(** The fields of [SerializedFarmConfig] the script reads ([pid] may be
    [null], [stableSwapAddress] may be absent). *)
Record SerializedFarmConfig : Set := {
  pid : option Z;
  lpAddress : string;
  stableSwapAddress : option string;
}.

#[global] Instance SingleFarmResponse_eq_dec : EqDecision SingleFarmResponse.
Proof. solve_decision. Defined.
#[global] Instance SerializedFarmConfig_eq_dec : EqDecision SerializedFarmConfig.
Proof. solve_decision. Defined.

Record SplitFarmResult : Set := {
  normalFarms : list SerializedFarmConfig;
  stableFarms : list SerializedFarmConfig;
}.

(** What the script reaches outside itself: the clock, the endpoint table,
    the three GraphQL requests (each with the query text fixed by the source
    and the variables as arguments) and the dynamic import of a chain's farm
    list. *)
Record World : Type := {
  (** [getUnixTime(new Date())] *)
  now : Z;
  BLOCKS_CLIENT_WITH_CHAIN : ChainId -> option string;
  (** [request(blockClient, getBlock, { timestampGreater, timestampLess })] *)
  request_getBlock : string -> Z -> Z -> Result (list BlockResponse);
  (** [infoClientWithChain(chainId).request(farmsBulk, { addresses, blockWeekAgo })] *)
  request_farmsBulk : ChainId -> list string -> option Z -> Result FarmsResponse;
  (** [stableSwapClient.request(virtualPriceStableSwap, { stableSwapAddress, blockDayAgo })] *)
  request_virtualPriceStableSwap : option string -> option Z -> Result VirtualPriceResponse;
  (** [import(`../packages/farms/constants/${chainId}`)], its [default] export *)
  import_farms : ChainId -> Result (list SerializedFarmConfig);
}.

(** Console output and the module-level [logged] flag. *)
Inductive LogLevel : Set := LogError | LogInfo.

Record LogEntry : Set := { level : LogLevel; args : list string }.

(** Besides the console and the flag, the files written: the chain and the
    map that [JSON.stringify] serialises into its [lpAprs] file. *)
Record State : Type := {
  logged : bool;
  console : list LogEntry;
  written : list (ChainId * AprMap);
}.

Definition initial_state : State := {| logged := false; console := []; written := [] |}.

(** Computations that log, set the flag and may throw. *)
Definition M (A : Type) : Type := State -> Result A * State.

#[global] Instance M_ret : MRet M := fun _ a st => (Ok a, st).
#[global] Instance M_bind : MBind M := fun _ _ f m st =>
  match m st with
  | (Ok a, st') => f a st'
  | (Throw e, st') => (Throw e, st')
  end.

Definition lift {A} (r : Result A) : M A := fun st => (r, st).

Definition console_log (lv : LogLevel) (a : list string) : M unit := fun st =>
  (Ok tt, {| logged := logged st;
             console := console st ++ [{| level := lv; args := a |}];
             written := written st |}).

Definition set_logged (b : bool) : M unit := fun st =>
  (Ok tt, {| logged := b; console := console st; written := written st |}).

Definition get_logged : M bool := fun st => (Ok (logged st), st).

Definition writeFile (c : ChainId) (content : AprMap) : M unit := fun st =>
  (Ok tt, {| logged := logged st; console := console st;
             written := written st ++ [(c, content)] |}).

Definition try_catch {A} (body : M A) (handler : string -> M A) : M A := fun st =>
  match body st with
  | (Ok a, st') => (Ok a, st')
  | (Throw e, st') => handler e st'
  end.

(** ** The functions of the script *)

Import BigNumber (Fin, Dec, NaN, Infinity).

(** [sub(new Date(), { weeks: 1 })] as seven days of 86400 seconds (date-fns
    follows the local calendar; a daylight-saving shift is not modelled). *)
Definition getWeekAgoTimestamp (w : World) : Z := now w - 604800.

Definition LP_HOLDERS_FEE : BigNumber.t := Fin (Dec 25 4).
Definition WEEKS_IN_A_YEAR : BigNumber.t := Fin (Dec 521429 4).

Definition getBlockAtTimestamp (w : World) (timestamp : Z) (chainId : ChainId)
  : Result (option Z) :=
  let attempt : Result (option Z) :=
    blockClient ←
      match BLOCKS_CLIENT_WITH_CHAIN w chainId with
      | Some c =>
          if bool_decide (c = "") then
            Throw (new_Error ("missing block client for chainId " +:+ pretty (chain_number chainId)))
          else Ok c
      | None =>
          Throw (new_Error ("missing block client for chainId " +:+ pretty (chain_number chainId)))
      end;
    blocks ← request_getBlock w blockClient timestamp (timestamp + 600);
    match blocks with
    | b :: _ => Ok (parseInt (number b))
    | [] => Throw "TypeError: Cannot read properties of undefined (reading 'number')"
    end in
  match attempt with
  | Ok n => Ok n
  | Throw error =>
      Throw (new_Error ("Failed to fetch block number for " +:+ pretty timestamp +:+ EOL +:+ error))
  end.

(** [lpFeesInAYear] in the reduce callback of [getAprsForFarmGroup]. *)
Definition lpFeesInAYear (farm farmWeekAgo : SingleFarmResponse) : BigNumber.t :=
  let volume7d :=
    BigNumber.minus (BigNumber.of_string (volumeUSD farm))
                    (BigNumber.of_string (volumeUSD farmWeekAgo)) in
  let lpFees7d := BigNumber.times volume7d LP_HOLDERS_FEE in
  BigNumber.times lpFees7d WEEKS_IN_A_YEAR.

(** The [lpApr] of that callback, before it is rounded. *)
Definition lpApr (farmsOneWeekAgo : list SingleFarmResponse) (farm : SingleFarmResponse)
  : BigNumber.t :=
  match List.find (fun oldFarm => bool_decide (id oldFarm = id farm)) farmsOneWeekAgo with
  | Some farmWeekAgo =>
      let lpFeesInAYear := lpFeesInAYear farm farmWeekAgo in
      if BigNumber.gt0 lpFeesInAYear then
        let liquidity := BigNumber.of_string (reserveUSD farm) in
        BigNumber.dividedBy (BigNumber.times lpFeesInAYear (BigNumber.of_Z 100)) liquidity
      else BigNumber.zero
  | None => BigNumber.zero
  end.

(** The reduce over [farmsAtLatestBlock]. *)
Definition aprsOfResponse (resp : FarmsResponse) : AprMap :=
  foldl (fun aprMap farm =>
           <[id farm := BigNumber.decimalPlaces 2 (lpApr (farmsOneWeekAgo resp) farm)]> aprMap)
        ∅ (farmsAtLatestBlock resp).

Definition getAprsForFarmGroup (w : World) (addresses : list string)
    (blockWeekAgo : option Z) (chainId : ChainId) : Result AprMap :=
  match request_farmsBulk w chainId addresses blockWeekAgo with
  | Ok resp => Ok (aprsOfResponse resp)
  | Throw error => Throw (new_Error ("Failed to fetch LP APR data: " +:+ error))
  end.

(** [entries[0]?.virtualPrice]: [undefined] for an empty list. *)
Definition firstVirtualPrice (entries : list VirtualPriceEntry) : option string :=
  match entries with
  | e :: _ => virtualPrice e
  | [] => None
  end.

(** The [try] block of [getAprsForStableFarm]. *)
Definition stableAprAttempt (w : World) (stableFarm : SerializedFarmConfig)
    (chainId : ChainId) : Result BigNumber.t :=
  let dayAgoTimestamp := now w - 86400 in
  blockDayAgo ← getBlockAtTimestamp w dayAgoTimestamp chainId;
  resp ← request_virtualPriceStableSwap w (stableSwapAddress stableFarm) blockDayAgo;
  let virtualPrice := firstVirtualPrice (virtualPriceAtLatestBlock resp) in
  let preVirtualPrice := firstVirtualPrice (virtualPriceOneDayAgo resp) in
  let current := BigNumber.of_field virtualPrice in
  let prev := BigNumber.of_field preVirtualPrice in
  Ok (BigNumber.minus (BigNumber.pow (BigNumber.dividedBy current prev) 365) (BigNumber.of_Z 1)).

Definition getAprsForStableFarm (w : World) (stableFarm : SerializedFarmConfig)
    (chainId : ChainId) : M BigNumber.t :=
  try_catch (lift (stableAprAttempt w stableFarm chainId))
    (fun error =>
       console_log LogError [error; "[LP APR Update] getAprsForStableFarm error"];;
       mret (BigNumber.of_string "0")).

(** [farm?.stableSwapAddress] as a condition: present and not empty. *)
Definition hasStableSwapAddress (farm : SerializedFarmConfig) : bool :=
  match stableSwapAddress farm with
  | Some a => negb (bool_decide (a = ""))
  | None => false
  end.

Definition splitNormalAndStableFarmsReducer (result : SplitFarmResult)
    (farm : SerializedFarmConfig) : SplitFarmResult :=
  if hasStableSwapAddress farm then
    {| normalFarms := normalFarms result; stableFarms := stableFarms result ++ [farm] |}
  else
    {| stableFarms := stableFarms result; normalFarms := normalFarms result ++ [farm] |}.

Definition getFarmConfig (w : World) (chainId : ChainId) : M (list SerializedFarmConfig) :=
  try_catch
    (farms ← lift (import_farms w chainId);
     mret (List.filter (fun f => negb (bool_decide (pid f = None))) farms))
    (fun error =>
       l ← get_logged;
       (if negb l then
          console_log LogError ["Cannot get farm config"; error; pretty (chain_number chainId)];;
          set_logged true
        else mret tt);;
       mret []).

Definition FETCH_CHAIN_ID : list ChainId := [BITGERT].

(** The sequential loop over the groups of addresses. *)
Fixpoint fetchGroups (w : World) (groups : list (list string)) (blockWeekAgo : option Z)
    (chainId : ChainId) (allAprs : AprMap) : Result AprMap :=
  match groups with
  | [] => Ok allAprs
  | groupOfAddresses :: rest =>
      aprs ← getAprsForFarmGroup w groupOfAddresses blockWeekAgo chainId;
      fetchGroups w rest blockWeekAgo chainId (aprs ∪ allAprs)
  end.

(** [Promise.all(stableFarms.map(...))]; the calls only log, and their
    entries are taken in list order. *)
Fixpoint stableAprsOf (w : World) (farms : list SerializedFarmConfig) (chainId : ChainId)
  : M (list BigNumber.t) :=
  match farms with
  | [] => mret []
  | f :: rest =>
      apr ← getAprsForStableFarm w f chainId;
      aprs ← stableAprsOf w rest chainId;
      mret (apr :: aprs)
  end.

(** The reduce over [stableAprs], reading [stableFarms[index]]. *)
Definition stableAprsMapOf (farms : list SerializedFarmConfig) (stableAprs : list BigNumber.t)
  : AprMap :=
  foldl (fun result '(farm, apr) => <[lpAddress farm := BigNumber.decimalPlaces 5 apr]> result)
        ∅ (zip farms stableAprs).

(** The task of one chain in [fetchAndUpdateLPsAPR]; it returns the map it
    writes. *)
Definition fetchAndUpdateChain (w : World) (chainId : ChainId) : M AprMap :=
  farmsConfig ← getFarmConfig w chainId;
  let split := foldl splitNormalAndStableFarmsReducer
                     {| normalFarms := []; stableFarms := [] |} farmsConfig in
  let lowerCaseAddresses := map (fun farm => toLowerCase (lpAddress farm)) (normalFarms split) in
  console_log LogInfo ["Fetching farm data for " +:+ pretty (length lowerCaseAddresses) +:+ " addresses"];;
  let addressesInGroups := chunk lowerCaseAddresses 30 in
  let weekAgoTimestamp := getWeekAgoTimestamp w in
  blockWeekAgo ← lift (getBlockAtTimestamp w weekAgoTimestamp chainId);
  allAprs ← lift (fetchGroups w addressesInGroups blockWeekAgo chainId ∅);
  allAprs ←
    try_catch
      (match stableFarms split with
       | [] => mret allAprs
       | _ =>
           stableAprs ← stableAprsOf w (stableFarms split) chainId;
           mret (stableAprsMapOf (stableFarms split) stableAprs ∪ allAprs)
       end)
      (fun error =>
         console_log LogError [error; "[LP APR Update] getAprsForStableFarm error"];;
         mret allAprs);
  writeFile chainId allAprs;;
  console_log LogInfo ["- lpAprs.json has been updated!"];;
  mret allAprs.

(** [fetchAndUpdateLPsAPR]: one task per chain, none awaited; a task that
    throws is an unhandled rejection and leaves the others alone. *)
Definition fetchAndUpdateLPsAPR (w : World) : State -> State :=
  fun st => foldl (fun st chainId => snd (fetchAndUpdateChain w chainId st)) st FETCH_CHAIN_ID.

(** ** The subgraphs

    What the indexing services answer to the queries of the source: the
    entities matching the [where] clause, cut to [first]. *)

Record Block : Set := { block_number : string; block_timestamp : Z }.

(** [blocks(first: 1, where: { timestamp_gt, timestamp_lt })] *)
Definition blocksQuery (index : list Block) (timestampGreater timestampLess : Z)
  : list BlockResponse :=
  map (fun b => {| number := block_number b |})
      (take 1 (List.filter (fun b => (timestampGreater <? block_timestamp b)
                                     && (block_timestamp b <? timestampLess)) index)).

(** The pairs entities of the exchange subgraph, now and at a block. *)
Record PairsSubgraph : Type := {
  pairsLatest : list SingleFarmResponse;
  pairsAtBlock : option Z -> list SingleFarmResponse;
}.

Definition id_in (addresses : list string) (p : SingleFarmResponse) : bool :=
  bool_decide (id p ∈ addresses).

(** The [farmsBulk] query: [pairs(first: 30, where: { id_in })], now and at
    [blockWeekAgo]. *)
Definition farmsBulkQuery (sg : PairsSubgraph) (addresses : list string)
    (blockWeekAgo : option Z) : FarmsResponse :=
  {| farmsAtLatestBlock := take 30 (List.filter (id_in addresses) (pairsLatest sg));
     farmsOneWeekAgo := take 30 (List.filter (id_in addresses) (pairsAtBlock sg blockWeekAgo)) |}.

(** The same request without the [first] bound: the APRs of all the
    addresses against one snapshot, in a single call. *)
Definition aprsUnbounded (sg : PairsSubgraph) (addresses : list string)
    (blockWeekAgo : option Z) : AprMap :=
  aprsOfResponse
    {| farmsAtLatestBlock := List.filter (id_in addresses) (pairsLatest sg);
       farmsOneWeekAgo := List.filter (id_in addresses) (pairsAtBlock sg blockWeekAgo) |}.

(** ** Auxiliary notions for the statements *)

Definition isNormal (f : SerializedFarmConfig) : bool := negb (hasStableSwapAddress f).

Definition has_id (k : string) (farm : SingleFarmResponse) : bool :=
  bool_decide (id farm = k).

(** The [console.error] entries of [getFarmConfig]. *)
Definition isConfigError (e : LogEntry) : bool :=
  match level e, args e with
  | LogError, a :: _ => bool_decide (a = "Cannot get farm config")
  | _, _ => false
  end.

Definition configErrors (st : State) : nat := length (List.filter isConfigError (console st)).

(** At most one such entry, and none while the flag is down. *)
Definition loggedOnce (st : State) : Prop :=
  (configErrors st <= 1)%nat ∧ (logged st = false -> configErrors st = 0%nat).

(** Successive invocations of [getFarmConfig], one per chain of the list. *)
Fixpoint getFarmConfigs (w : World) (chains : list ChainId) (st : State)
  : list (Result (list SerializedFarmConfig)) * State :=
  match chains with
  | [] => ([], st)
  | c :: rest =>
      let '(r, st1) := getFarmConfig w c st in
      let '(rs, st2) := getFarmConfigs w rest st1 in
      (r :: rs, st2)
  end.

(** The rational [q] rounded half-up (away from zero) to [dp] decimal
    places: the reference against which the decimal operations are read. *)
Definition round_Q (dp : nat) (q : Q) : BigNumber.decimal :=
  BigNumber.normalize
    (Dec (BigNumber.round_div (Qnum q * BigNumber.pow10 dp) (Z.pos (Qden q))) dp).

(** The expression of the normal-farm APR over the rationals:
    [(volumeUSD_latest - volumeUSD_weekAgo) * 0.0025 * 52.1429 * 100 / reserveUSD_latest]. *)
Definition aprFormula (volumeLatest volumeWeekAgo reserveLatest : Q) : Q :=
  ((volumeLatest - volumeWeekAgo) * (25 # 10000) * (521429 # 10000) * 100 / reserveLatest)%Q.

(** The expression of the stable-farm APR over the rationals:
    [(virtualPrice_latest / virtualPrice_dayAgo) ^ 365 - 1], for a ratio
    already formed. *)
Definition stableAprFormula (ratio : Q) : Q := (ratio ^ 365 - 1)%Q.

(** [farm] is the only entry of the snapshot [l] under its id. *)
Definition onlyEntryForId (farm : SingleFarmResponse) (l : list SingleFarmResponse) : Prop :=
  farm ∈ l ∧ Forall (fun other => id other = id farm -> other = farm) l.




(** The farm list [getFarmConfig] hands to its caller. *)
Definition farmConfigOf (w : World) (chainId : ChainId) : list SerializedFarmConfig :=
  match import_farms w chainId with
  | Ok farms => List.filter (fun f => negb (bool_decide (pid f = None))) farms
  | Throw _ => []
  end.

(** The rounded APR of the entry of [latest] kept under the id [k], against
    the week-ago snapshot [weekAgo]. *)
Definition aprOfId (latest weekAgo : list SingleFarmResponse) (k : string)
  : option BigNumber.t :=
  (fun farm => BigNumber.decimalPlaces 2 (lpApr weekAgo farm))
    <$> List.find (has_id k) (rev latest).

(** What [getAprsForStableFarm] returns: the value of the [try] block, or 0
    when it throws. *)
Definition stableAprValue (w : World) (stableFarm : SerializedFarmConfig) (chainId : ChainId)
  : BigNumber.t :=
  match stableAprAttempt w stableFarm chainId with
  | Ok v => v
  | Throw _ => BigNumber.of_string "0"
  end.

(** The farm lists of a chain as [fetchAndUpdateLPsAPR] splits them. *)
Definition splitOf (w : World) (chainId : ChainId) : SplitFarmResult :=
  foldl splitNormalAndStableFarmsReducer {| normalFarms := []; stableFarms := [] |}
        (farmConfigOf w chainId).




(** What the task of a chain, run from the initial state, stores under the
    key [k]; nothing when the task throws. *)
Definition storedApr (w : World) (chainId : ChainId) (k : string) : option BigNumber.t :=
  match fst (fetchAndUpdateChain w chainId initial_state) with
  | Ok allAprs => allAprs !! k
  | Throw _ => None
  end.

(** ** Sample data for the statements *)

Module Sample.

Definition farmA : SingleFarmResponse :=
  {| id := "0xf1a996efba43dcbd7945d2b91fa78420d9c23bf0";
     reserveUSD := "1000000"; volumeUSD := "500000.5" |}.
Definition farmA_old : SingleFarmResponse :=
  {| id := "0xf1a996efba43dcbd7945d2b91fa78420d9c23bf0";
     reserveUSD := "900000"; volumeUSD := "400000.5" |}.
(** A farm too new for the week-ago snapshot. *)
Definition farmB : SingleFarmResponse :=
  {| id := "0x5ebae3a840ff34b107d637c8ed07c3d1d2017178";
     reserveUSD := "2500.75"; volumeUSD := "120" |}.
(** A farm without volume over the week. *)
Definition farmC : SingleFarmResponse :=
  {| id := "0x0eb9036cbe0f052386f36170c6b07ef0a0e3f710";
     reserveUSD := "800"; volumeUSD := "77.7" |}.

Definition pairs : PairsSubgraph :=
  {| pairsLatest := [farmA; farmB; farmC];
     pairsAtBlock := fun _ => [farmA_old; farmC] |}.

Definition blocks : list Block :=
  [ {| block_number := "5000"; block_timestamp := 1699395200 |};
    {| block_number := "5001"; block_timestamp := 1699395203 |};
    {| block_number := "33800"; block_timestamp := 1699913601 |} ].

Definition farms : list SerializedFarmConfig :=
  [ {| pid := Some 0; lpAddress := "0xf1a996efba43dcbd7945d2b91fa78420d9c23bf0";
       stableSwapAddress := None |};
    {| pid := Some 1; lpAddress := "0x5ebAE3A840fF34B107D637c8Ed07C3D1D2017178";
       stableSwapAddress := None |};
    {| pid := None; lpAddress := "0x0eb9036cbE0f052386f36170c6b07eF0a0E3f710";
       stableSwapAddress := None |};
    {| pid := Some 3; lpAddress := "0x9E6d21E759A7A288b80eef94E4737D313D31c13f";
       stableSwapAddress := Some "0x40375C92d9FAf44d2f9db9Bd9ba41a3317a2404f" |} ].

Definition stableFarm : SerializedFarmConfig :=
  {| pid := Some 3; lpAddress := "0x9E6d21E759A7A288b80eef94E4737D313D31c13f";
     stableSwapAddress := Some "0x40375C92d9FAf44d2f9db9Bd9ba41a3317a2404f" |}.

Definition prices (latest dayAgo : list string) : VirtualPriceResponse :=
  {| virtualPriceAtLatestBlock := map (fun p => {| virtualPrice := Some p |}) latest;
     virtualPriceOneDayAgo := map (fun p => {| virtualPrice := Some p |}) dayAgo |}.

(** A world whose services answer from the data above. *)
Definition world : World :=
  {| now := 1700000000;
     BLOCKS_CLIENT_WITH_CHAIN := fun _ => Some "https://the-graph.icecreamswap.com/subgraphs/name/blocks";
     request_getBlock := fun _ gt lt => Ok (blocksQuery blocks gt lt);
     request_farmsBulk := fun _ addresses b => Ok (farmsBulkQuery pairs addresses b);
     request_virtualPriceStableSwap := fun _ _ => Ok (prices ["1.01"] ["1"]);
     import_farms := fun _ => Ok farms |}.

(** The same world with other stable-swap prices. *)
Definition world_with_prices (r : Result VirtualPriceResponse) : World :=
  {| now := now world;
     BLOCKS_CLIENT_WITH_CHAIN := BLOCKS_CLIENT_WITH_CHAIN world;
     request_getBlock := request_getBlock world;
     request_farmsBulk := request_farmsBulk world;
     request_virtualPriceStableSwap := fun _ _ => r;
     import_farms := import_farms world |}.

(** A farm whose quotient lies just below 0.005. *)
Definition farmD : SingleFarmResponse :=
  {| id := "0x27b45bcc26e01ed50b4080a405d1c492fee89d63";
     reserveUSD := "2607145.000000000000001"; volumeUSD := "2500" |}.
Definition farmD_old : SingleFarmResponse :=
  {| id := "0x27b45bcc26e01ed50b4080a405d1c492fee89d63";
     reserveUSD := "2607000"; volumeUSD := "1500" |}.

Definition world_D : World :=
  {| now := now world;
     BLOCKS_CLIENT_WITH_CHAIN := BLOCKS_CLIENT_WITH_CHAIN world;
     request_getBlock := request_getBlock world;
     request_farmsBulk := fun _ _ _ =>
       Ok {| farmsAtLatestBlock := [farmD]; farmsOneWeekAgo := [farmD_old] |};
     request_virtualPriceStableSwap := request_virtualPriceStableSwap world;
     import_farms := import_farms world |}.

(** A world where no chain has a farm list to import. *)
Definition world_without_config : World :=
  {| now := now world;
     BLOCKS_CLIENT_WITH_CHAIN := BLOCKS_CLIENT_WITH_CHAIN world;
     request_getBlock := request_getBlock world;
     request_farmsBulk := request_farmsBulk world;
     request_virtualPriceStableSwap := request_virtualPriceStableSwap world;
     import_farms := fun _ => Throw "Error: Cannot find module" |}.

End Sample.


(** The map and the state that the task of chain BITGERT ends with in
    [Sample.world]. *)
Definition sample_aprs : AprMap :=
  match fst (fetchAndUpdateChain Sample.world BITGERT initial_state) with
  | Ok m => m
  | Throw _ => ∅
  end.

Definition sample_state : State :=
  snd (fetchAndUpdateChain Sample.world BITGERT initial_state).

(** ** Readings of the specification to be compared with the code *)

(** The normal-farm APR read as the exact quotient [aprFormula] rounded once,
    half-up, to 2 decimal places. *)
Definition aprRoundedOnce : Prop :=
  ∀ (w : World) (addresses : list string) (blockWeekAgo : option Z) (chainId : ChainId)
    (resp : FarmsResponse) (farm old : SingleFarmResponse) (vl vw r : BigNumber.decimal),
    request_farmsBulk w chainId addresses blockWeekAgo = Ok resp ->
    onlyEntryForId farm (farmsAtLatestBlock resp) ->
    List.find (has_id (id farm)) (farmsOneWeekAgo resp) = Some old ->
    BigNumber.of_string (volumeUSD farm) = Fin vl ->
    BigNumber.of_string (volumeUSD old) = Fin vw ->
    BigNumber.of_string (reserveUSD farm) = Fin r ->
    BigNumber.mant r <> 0 ->
    BigNumber.gt0 (lpFeesInAYear farm old) = true ->
    ∃ aprs : AprMap,
      getAprsForFarmGroup w addresses blockWeekAgo chainId = Ok aprs ∧
      aprs !! id farm =
        Some (Fin (round_Q 2 (aprFormula (BigNumber.to_Q vl) (BigNumber.to_Q vw)
                                         (BigNumber.to_Q r)))).


(** ** Further notions: outcomes of the task, well-formed snapshots *)

(** The outcome of a chain's task with the console left aside: the week-ago
    block, the groups of addresses, then the stable farms merged over the
    normal ones. *)
Definition chainResult (w : World) (chainId : ChainId) : Result AprMap :=
  blockWeekAgo ← getBlockAtTimestamp w (getWeekAgoTimestamp w) chainId;
  normalAprs ←
    fetchGroups w (chunk (map (fun farm => toLowerCase (lpAddress farm))
                              (normalFarms (splitOf w chainId))) 30)
                blockWeekAgo chainId ∅;
  Ok (stableAprsMapOf (stableFarms (splitOf w chainId))
        (map (fun f => stableAprValue w f chainId) (stableFarms (splitOf w chainId)))
      ∪ normalAprs).

(** A finite value that is not negative and has at most [dp] decimal places. *)
Definition nonNegativeAt (dp : nat) (v : BigNumber.t) : Prop :=
  ∃ d, v = Fin d ∧ 0 <= BigNumber.mant d ∧ (BigNumber.scale d <= dp)%nat.

(** A value with at most [dp] decimal places when it is finite. *)
Definition placesAtMost (dp : nat) (v : BigNumber.t) : Prop :=
  match v with
  | Fin d => (BigNumber.scale d <= dp)%nat
  | _ => True
  end.

Definition finiteVolume (f : SingleFarmResponse) : Prop :=
  ∃ v, BigNumber.of_string (volumeUSD f) = Fin v.

Definition positiveReserve (f : SingleFarmResponse) : Prop :=
  ∃ r, BigNumber.of_string (reserveUSD f) = Fin r ∧ 0 < BigNumber.mant r.

(** The request of a group of addresses is answered. *)
Definition groupAnswered (w : World) (chainId : ChainId) (blockWeekAgo : option Z)
    (g : list string) : Prop :=
  ∃ resp, request_farmsBulk w chainId g blockWeekAgo = Ok resp.

Module Sample2.



(** A world whose exchange subgraph fails for every group. *)
Definition world_info_down : World :=
  {| now := now Sample.world;
     BLOCKS_CLIENT_WITH_CHAIN := BLOCKS_CLIENT_WITH_CHAIN Sample.world;
     request_getBlock := request_getBlock Sample.world;
     request_farmsBulk := fun _ _ _ => Throw "Error: GraphQL Error (Code: 504)";
     request_virtualPriceStableSwap := request_virtualPriceStableSwap Sample.world;
     import_farms := import_farms Sample.world |}.

(** A world whose exchange subgraph fails for the groups that ask for the
    second farm. *)
Definition world_group_down : World :=
  {| now := now Sample.world;
     BLOCKS_CLIENT_WITH_CHAIN := BLOCKS_CLIENT_WITH_CHAIN Sample.world;
     request_getBlock := request_getBlock Sample.world;
     request_farmsBulk := fun chainId addresses b =>
       if bool_decide (id Sample.farmB ∈ addresses)
       then Throw "Error: GraphQL Error (Code: 504)"
       else request_farmsBulk Sample.world chainId addresses b;
     request_virtualPriceStableSwap := request_virtualPriceStableSwap Sample.world;
     import_farms := import_farms Sample.world |}.

(** An exchange subgraph that answers with two entries under one id. *)
Definition farmA_stale : SingleFarmResponse :=
  {| id := "0xf1a996efba43dcbd7945d2b91fa78420d9c23bf0";
     reserveUSD := "950000"; volumeUSD := "450000.5" |}.

Definition duplicates : FarmsResponse :=
  {| farmsAtLatestBlock := [farmA_stale; Sample.farmB; Sample.farmA];
     farmsOneWeekAgo := [Sample.farmA_old] |}.

Definition world_duplicates : World :=
  {| now := now Sample.world;
     BLOCKS_CLIENT_WITH_CHAIN := BLOCKS_CLIENT_WITH_CHAIN Sample.world;
     request_getBlock := request_getBlock Sample.world;
     request_farmsBulk := fun _ _ _ => Ok duplicates;
     request_virtualPriceStableSwap := request_virtualPriceStableSwap Sample.world;
     import_farms := import_farms Sample.world |}.

(** A world where no chain has a blocks endpoint. *)
Definition world_without_blocks : World :=
  {| now := now Sample.world;
     BLOCKS_CLIENT_WITH_CHAIN := fun _ => None;
     request_getBlock := request_getBlock Sample.world;
     request_farmsBulk := request_farmsBulk Sample.world;
     request_virtualPriceStableSwap := request_virtualPriceStableSwap Sample.world;
     import_farms := import_farms Sample.world |}.

End Sample2.

(** The console entry of a stable farm whose [try] block throws. *)
Definition stableErrorEntry (w : World) (chainId : ChainId) (f : SerializedFarmConfig)
  : option LogEntry :=
  match stableAprAttempt w f chainId with
  | Ok _ => None
  | Throw e =>
      Some {| level := LogError; args := [e; "[LP APR Update] getAprsForStableFarm error"] |}
  end.

(** * Properties *)

(** A decidable statement about concrete data is settled by evaluation. *)
Ltac by_decide := apply (bool_decide_unpack _); vm_compute; exact I.

(** ** Sanity checks of the helpers *)

Example of_string_1 :
  BigNumber.of_string "2607145000000.000001" = Fin (Dec 2607145000000000001 6).
Proof. reflexivity. Qed.
Example of_string_2 :
  BigNumber.of_string "-12.50" = Fin (Dec (-125) 1).
Proof. reflexivity. Qed.
Example of_string_3 :
  BigNumber.of_string "1.5e3" = Fin (Dec 1500 0).
Proof. reflexivity. Qed.
Example of_string_4 :
  BigNumber.of_string ".5E-2" = Fin (Dec 5 3).
Proof. reflexivity. Qed.
Example of_string_5 :
  BigNumber.of_string "abc" = NaN.
Proof. reflexivity. Qed.
Example of_string_6 :
  BigNumber.of_string "5." = Fin (Dec 5 0).
Proof. reflexivity. Qed.
Example of_string_7 :
  BigNumber.of_string "." = NaN.
Proof. reflexivity. Qed.
Example of_string_8 :
  BigNumber.of_string "1e" = NaN.
Proof. reflexivity. Qed.
Example div_1 :
  BigNumber.dividedBy (BigNumber.of_string "1") (BigNumber.of_string "3") = Fin (Dec 33333333333333333333 20).
Proof. reflexivity. Qed.
Example div_2 :
  BigNumber.dividedBy (BigNumber.of_string "-2") (BigNumber.of_string "3") = Fin (Dec (-66666666666666666667) 20).
Proof. reflexivity. Qed.
Example dp_1 :
  BigNumber.decimalPlaces 2 (BigNumber.of_string "0.005") = Fin (Dec 1 2).
Proof. reflexivity. Qed.
Example dp_2 :
  BigNumber.decimalPlaces 2 (BigNumber.of_string "-0.005") = Fin (Dec (-1) 2).
Proof. reflexivity. Qed.
Example dp_3 :
  BigNumber.decimalPlaces 2 (BigNumber.of_string "0.00499") = Fin (Dec 0 0).
Proof. reflexivity. Qed.
Example parseInt_1 :
  parseInt " 1234x" = Some 1234.
Proof. reflexivity. Qed.
Example parseInt_2 :
  parseInt "x" = None.
Proof. reflexivity. Qed.
Example toLowerCase_1 :
  toLowerCase "0x5ebAE3A840fF" = "0x5ebae3a840ff".
Proof. reflexivity. Qed.
Example chunk_1 :
  chunk [1;2;3;4;5] 2 = [[1;2];[3;4];[5]].
Proof. reflexivity. Qed.


(** ** The decimal operations against the rationals *)

Section Decimals.

Import BigNumber.
Implicit Types (a b : decimal) (m n : Z) (q : Q).

Lemma pow10_pos k : 0 < pow10 k.
Proof. unfold pow10. apply Z.pow_pos_nonneg; lia. Qed.

Lemma pow10_add j k : pow10 (j + k) = pow10 j * pow10 k.
Proof. unfold pow10. rewrite Nat2Z.inj_add, Z.pow_add_r; lia. Qed.

Lemma pow10_S k : pow10 (S k) = 10 * pow10 k.
Proof. unfold pow10. rewrite Nat2Z.inj_succ, Z.pow_succ_r; lia. Qed.

(** Two fractions with the same cross products are the same rational. *)
Lemma frac_eq n1 d1 n2 d2 :
  d1 <> 0 -> d2 <> 0 -> n1 * d2 = n2 * d1 ->
  (inject_Z n1 / inject_Z d1 == inject_Z n2 / inject_Z d2)%Q.
Proof.
  intros H1 H2 H.
  assert (~ (inject_Z d1 == 0)%Q) by (unfold Qeq; simpl; lia).
  assert (~ (inject_Z d2 == 0)%Q) by (unfold Qeq; simpl; lia).
  apply (Qmult_inj_r _ _ (inject_Z d1 * inject_Z d2)).
  - intros E. apply Qmult_integral in E. tauto.
  - transitivity (inject_Z (n1 * d2)).
    + rewrite inject_Z_mult. field. done.
    + rewrite H, inject_Z_mult. field. done.
Qed.

Lemma frac_cross q n d :
  d <> 0 -> (q == inject_Z n / inject_Z d)%Q -> Qnum q * d = n * Z.pos (Qden q).
Proof.
  intros Hd Hq.
  assert (~ (inject_Z d == 0)%Q) as Hd' by (unfold Qeq; simpl; lia).
  assert (q * inject_Z d == inject_Z n)%Q as E by (rewrite Hq; field; done).
  unfold Qeq in E. simpl in E. lia.
Qed.

Lemma to_Q_normalize_aux m s : (to_Q (normalize_aux m s) == to_Q (Dec m s))%Q.
Proof.
  revert m. induction s as [|s IH]; intros m; simpl; [reflexivity|].
  destruct (m mod 10 =? 0) eqn:E; [|reflexivity].
  rewrite IH. unfold to_Q. simpl.
  pose proof (pow10_pos s). pose proof (pow10_pos (S s)).
  apply frac_eq; [lia..|].
  rewrite pow10_S. apply Z.eqb_eq in E.
  pose proof (Z.div_mod m 10). lia.
Qed.

Lemma to_Q_normalize (d : decimal) : (to_Q (normalize d) == to_Q d)%Q.
Proof. destruct d. apply to_Q_normalize_aux. Qed.

(** Scaling the mantissa and the scale together does not change the
    normal form. *)
Lemma normalize_scaled m s k : normalize (Dec (m * pow10 k) (k + s)) = normalize (Dec m s).
Proof.
  unfold normalize. simpl. induction k as [|k IH]; simpl.
  - f_equal. unfold pow10. simpl. lia.
  - rewrite pow10_S.
    replace (m * (10 * pow10 k)) with ((m * pow10 k) * 10) by lia.
    rewrite Z.mod_mul, Z.div_mul by lia. simpl. apply IH.
Qed.

(** *** Rounding *)

Lemma round_div_ext n1 d1 n2 d2 :
  d1 <> 0 -> d2 <> 0 -> n1 * d2 = n2 * d1 -> round_div n1 d1 = round_div n2 d2.
Proof.
  intros H1 H2 H. unfold round_div.
  assert (Z.sgn n1 * Z.sgn d1 = Z.sgn n2 * Z.sgn d2) as ->.
  { assert (Z.sgn (n1 * d2) = Z.sgn (n2 * d1)) as E by (by rewrite H).
    rewrite !Z.sgn_mul in E.
    pose proof (Z.sgn_spec d1). pose proof (Z.sgn_spec d2).
    pose proof (Z.sgn_spec n1). pose proof (Z.sgn_spec n2). lia. }
  f_equal.
  assert (Z.abs n1 * Z.abs d2 = Z.abs n2 * Z.abs d1) as E
    by (by rewrite <- !Z.abs_mul, H).
  assert (0 < Z.abs d1) as Hb1 by lia. assert (0 < Z.abs d2) as Hb2 by lia.
  assert (0 <= Z.abs n1) as Ha1 by lia. assert (0 <= Z.abs n2) as Ha2 by lia.
  revert E Hb1 Hb2 Ha1 Ha2.
  generalize (Z.abs n1) (Z.abs n2) (Z.abs d1) (Z.abs d2).
  clear. intros a1 a2 b1 b2 E Hb1 Hb2 Ha1 Ha2.
  pose proof (Z.div_mod (2 * a2 + b2) (2 * b2)) as Hdm.
  pose proof (Z.mod_pos_bound (2 * a2 + b2) (2 * b2)) as Hmb.
  set (q := (2 * a2 + b2) / (2 * b2)) in *.
  set (r := (2 * a2 + b2) mod (2 * b2)) in *.
  assert (b2 * (2 * a1 + b1 - 2 * b1 * q) = b1 * r) as Hr by nia.
  symmetry. apply Z.div_unique_pos with (r := 2 * a1 + b1 - 2 * b1 * q); [|lia].
  split; nia.
Qed.

(** [round_div] is within half a unit of the quotient, and a tie goes away
    from zero. *)
Lemma round_div_nearest n (d : Z) :
  0 < d -> Z.abs (2 * (d * round_div n d) - 2 * n) <= d.
Proof.
  intros Hd. unfold round_div.
  rewrite (Z.sgn_pos d), (Z.abs_eq d) by lia.
  pose proof (Z.div_mod (2 * Z.abs n + d) (2 * d) ltac:(lia)) as Hdm.
  pose proof (Z.mod_pos_bound (2 * Z.abs n + d) (2 * d) ltac:(lia)) as Hmb.
  set (q := (2 * Z.abs n + d) / (2 * d)) in *.
  destruct n as [|p|p]; simpl Z.sgn; simpl Z.abs in *; nia.
Qed.

Lemma round_div_tie n (d : Z) k :
  0 < d -> 0 <= n -> 2 * n = (2 * k + 1) * d ->
  round_div n d = k + 1 ∧ round_div (- n) d = - (k + 1).
Proof.
  intros Hd Hn Htie. unfold round_div.
  rewrite Z.abs_opp, (Z.sgn_pos d), (Z.abs_eq d), (Z.abs_eq n) by lia.
  assert ((2 * n + d) / (2 * d) = k + 1) as ->.
  { symmetry. apply Z.div_unique_pos with (r := 0); lia. }
  assert (0 < n) as Hpos.
  { destruct (Z.eq_dec n 0) as [->|]; [|lia].
    symmetry in Htie. apply Z.mul_eq_0 in Htie. lia. }
  rewrite Z.sgn_opp, (Z.sgn_pos n) by lia. lia.
Qed.

Lemma round_div_1 n : round_div n 1 = n.
Proof.
  unfold round_div. change (Z.sgn 1) with 1. change (Z.abs 1) with 1.
  assert ((2 * Z.abs n + 1) / (2 * 1) = Z.abs n) as ->.
  { symmetry. apply Z.div_unique_pos with (r := 1); lia. }
  destruct n; simpl; lia.
Qed.

Lemma round_Q_fraction dp q n d :
  d <> 0 -> (q == inject_Z n / inject_Z d)%Q ->
  round_Q dp q = normalize (Dec (round_div (n * pow10 dp) d) dp).
Proof.
  intros Hd Hq. unfold round_Q. do 2 f_equal.
  apply round_div_ext; [lia|done|].
  pose proof (frac_cross q n d Hd Hq) as E.
  transitivity (Qnum q * d * pow10 dp); [ring|]. rewrite E. ring.
Qed.

Lemma round_Q_proper dp q1 q2 : (q1 == q2)%Q -> round_Q dp q1 = round_Q dp q2.
Proof.
  intros E. unfold round_Q. do 2 f_equal.
  apply round_div_ext; [lia..|]. unfold Qeq in E.
  transitivity (Qnum q1 * Z.pos (Qden q2) * pow10 dp); [ring|]. rewrite E. ring.
Qed.

(** [decimalPlaces] rounds the value half-up. *)
Lemma round_dec_round_Q dp (d : decimal) : round_dec dp d = round_Q dp (to_Q d).
Proof.
  destruct d as [m s]. pose proof (pow10_pos s).
  rewrite (round_Q_fraction dp _ m (pow10 s)); [|lia|reflexivity].
  unfold round_dec. simpl. destruct (s <=? dp)%nat eqn:E.
  - apply Nat.leb_le in E.
    assert (pow10 dp = pow10 (dp - s) * pow10 s) as Edp
      by (rewrite <- pow10_add; f_equal; lia).
    replace (round_div (m * pow10 dp) (pow10 s)) with (m * pow10 (dp - s)).
    + rewrite <- (normalize_scaled m s (dp - s)). do 2 f_equal. lia.
    + rewrite <- (round_div_1 (m * pow10 (dp - s))).
      apply round_div_ext; [lia..|]. rewrite Edp. ring.
  - apply Nat.leb_gt in E. do 2 f_equal.
    pose proof (pow10_pos (s - dp)).
    assert (pow10 s = pow10 (s - dp) * pow10 dp) as Es
      by (rewrite <- pow10_add; f_equal; lia).
    apply round_div_ext; [lia..|]. rewrite Es. ring.
Qed.

(** [dividedBy] rounds the quotient half-up at DECIMAL_PLACES. *)
Lemma div_dec_round_Q a b :
  mant b <> 0 -> div_dec a b = round_Q DECIMAL_PLACES (to_Q a / to_Q b).
Proof.
  intros Hb. destruct a as [ma sa], b as [mb sb]. simpl in Hb.
  pose proof (pow10_pos sa). pose proof (pow10_pos sb).
  rewrite (round_Q_fraction _ _ (ma * pow10 sb) (mb * pow10 sa)); [done|nia|].
  unfold to_Q. simpl. rewrite !inject_Z_mult.
  assert (~ (inject_Z mb == 0)%Q) by (unfold Qeq; simpl; lia).
  assert (~ (inject_Z (pow10 sa) == 0)%Q) by (unfold Qeq; simpl; lia).
  assert (~ (inject_Z (pow10 sb) == 0)%Q) by (unfold Qeq; simpl; lia).
  field. done.
Qed.

(** *** The exact operations *)

Lemma to_Q_make m s : (to_Q (Dec m s) == m # Z.to_pos (pow10 s))%Q.
Proof.
  unfold to_Q. simpl. pose proof (pow10_pos s) as Hp.
  destruct (pow10 s) as [|p|p]; try lia.
  unfold Qeq, Qdiv, Qmult, Qinv. simpl. lia.
Qed.

Lemma to_Q_sub_dec a b : (to_Q (sub_dec a b) == to_Q a - to_Q b)%Q.
Proof.
  unfold sub_dec. rewrite to_Q_normalize. destruct a as [ma sa], b as [mb sb].
  simpl. set (s := Nat.max sa sb). rewrite !to_Q_make.
  assert (pow10 s = pow10 (s - sa) * pow10 sa) as Ea
    by (rewrite <- pow10_add; f_equal; lia).
  assert (pow10 s = pow10 (s - sb) * pow10 sb) as Eb
    by (rewrite <- pow10_add; f_equal; lia).
  pose proof (pow10_pos sa). pose proof (pow10_pos sb). pose proof (pow10_pos s).
  unfold Qeq, Qminus, Qplus, Qopp. simpl.
  rewrite Pos2Z.inj_mul, !Z2Pos.id by done.
  transitivity (ma * (pow10 (s - sa) * pow10 sa) * pow10 sb
                - mb * (pow10 (s - sb) * pow10 sb) * pow10 sa); [ring|].
  rewrite <- Ea, <- Eb. ring.
Qed.

Lemma to_Q_mul_dec a b : (to_Q (mul_dec a b) == to_Q a * to_Q b)%Q.
Proof.
  unfold mul_dec. rewrite to_Q_normalize. destruct a as [ma sa], b as [mb sb].
  unfold to_Q. simpl. rewrite pow10_add, !inject_Z_mult.
  pose proof (pow10_pos sa). pose proof (pow10_pos sb).
  assert (~ (inject_Z (pow10 sa) == 0)%Q) by (unfold Qeq; simpl; lia).
  assert (~ (inject_Z (pow10 sb) == 0)%Q) by (unfold Qeq; simpl; lia).
  field. done.
Qed.

Lemma to_Q_pow_dec (d : decimal) k :
  (to_Q (normalize (Dec (mant d ^ Z.of_nat k) (scale d * k))) == to_Q d ^ Z.of_nat k)%Q.
Proof.
  rewrite to_Q_normalize. destruct d as [m s]. unfold to_Q. simpl.
  rewrite Qdiv_power, <- !Zpower_Qpower by lia.
  unfold pow10. rewrite Nat2Z.inj_mul, Z.pow_mul_r by lia. reflexivity.
Qed.

Lemma mul_dec_mant_pos a b : 0 < mant (mul_dec a b) <-> 0 < mant a * mant b.
Proof.
  unfold mul_dec, normalize. simpl.
  generalize (mant a * mant b) (scale a + scale b)%nat. intros m s. revert m.
  induction s as [|s IH]; intros m; simpl; [done|].
  destruct (m mod 10 =? 0) eqn:E; [|done].
  rewrite IH. apply Z.eqb_eq in E. pose proof (Z.div_mod m 10). lia.
Qed.

End Decimals.

(** ** The farm partitioner *)

Section Partition.

Implicit Types (farms : list SerializedFarmConfig) (r : SplitFarmResult).

Lemma split_foldl farms r :
  foldl splitNormalAndStableFarmsReducer r farms =
  {| normalFarms := normalFarms r ++ List.filter isNormal farms;
     stableFarms := stableFarms r ++ List.filter hasStableSwapAddress farms |}.
Proof.
  revert r. induction farms as [|f farms IH]; intros r; simpl.
  - rewrite !app_nil_r. by destruct r.
  - rewrite IH. unfold splitNormalAndStableFarmsReducer, isNormal.
    destruct (hasStableSwapAddress f); simpl; by rewrite <- ?app_assoc.
Qed.

Lemma filter_split_perm farms :
  farms ≡ₚ List.filter isNormal farms ++ List.filter hasStableSwapAddress farms.
Proof.
  induction farms as [|f farms IH]; simpl; [done|].
  unfold isNormal at 1. destruct (hasStableSwapAddress f); simpl.
  - rewrite <- Permutation_middle. by constructor.
  - by constructor.
Qed.

End Partition.

(** C6. Folding [splitNormalAndStableFarmsReducer] over a farm list gives the
    farms without a stable-swap address, in input order, as [normalFarms] and
    those with a non-empty one, in input order, as [stableFarms]; the two
    groups together are a rearrangement of the input; every input farm is in
    exactly one of them, in [stableFarms] when its [stableSwapAddress] is
    present and not empty and in [normalFarms] otherwise. *)
Theorem split_normal_stable_partition (farms : list SerializedFarmConfig) :
  let r := foldl splitNormalAndStableFarmsReducer
                 {| normalFarms := []; stableFarms := [] |} farms in
  normalFarms r = List.filter isNormal farms ∧
  stableFarms r = List.filter hasStableSwapAddress farms ∧
  farms ≡ₚ normalFarms r ++ stableFarms r ∧
  Forall (fun f =>
            match stableSwapAddress f with
            | Some a => if decide (a = "")
                        then f ∈ normalFarms r ∧ f ∉ stableFarms r
                        else f ∈ stableFarms r ∧ f ∉ normalFarms r
            | None => f ∈ normalFarms r ∧ f ∉ stableFarms r
            end) farms.
Proof.
  intros r. subst r. rewrite split_foldl. simpl.
  split; [done|]. split; [done|]. split; [apply filter_split_perm|].
  apply Forall_forall. intros f Hf.
  assert (∀ p : SerializedFarmConfig -> bool,
            f ∈ List.filter p farms <-> p f = true) as Hmem.
  { intros p. rewrite list_elem_of_In, filter_In, <- list_elem_of_In. tauto. }
  cbv beta. pose proof (Hmem isNormal) as Hn.
  pose proof (Hmem hasStableSwapAddress) as Hs.
  unfold isNormal, hasStableSwapAddress in Hn, Hs.
  destruct (stableSwapAddress f) as [a|]; [|rewrite Hn, Hs; done].
  destruct (decide (a = "")) as [->|Hne]; rewrite Hn, Hs; [done|].
  rewrite (bool_decide_eq_false_2 _ Hne). done.
Qed.

Example split_sample :
  foldl splitNormalAndStableFarmsReducer {| normalFarms := []; stableFarms := [] |}
        Sample.farms
  = {| normalFarms := take 3 Sample.farms; stableFarms := drop 3 Sample.farms |}.
Proof. reflexivity. Qed.

(** ** The normal-farm calculator *)

Lemma find_app_first {A} (f : A -> bool) (l1 l2 : list A) :
  List.find f (l1 ++ l2) =
  match List.find f l1 with
  | Some x => Some x
  | None => List.find f l2
  end.
Proof. induction l1 as [|x l1 IH]; simpl; [done|]. by destruct (f x). Qed.

Section InsertReduce.

Context {A : Type} (key : A -> string) (value : A -> BigNumber.t).
Implicit Types (l : list A) (m : AprMap).

(** A reduce that inserts under a key keeps, for each key, its last entry. *)
Lemma foldl_insert_lookup l m k :
  foldl (fun m x => <[key x := value x]> m) m l !! k =
  match List.find (fun x => bool_decide (key x = k)) (rev l) with
  | Some x => Some (value x)
  | None => m !! k
  end.
Proof.
  revert m. induction l as [|x l IH]; intros m; simpl; [done|].
  rewrite IH, find_app_first.
  destruct (List.find (fun x => bool_decide (key x = k)) (rev l)); [done|].
  simpl. case_bool_decide as Hx.
  - subst k. by rewrite lookup_insert_eq.
  - by rewrite lookup_insert_ne.
Qed.

Lemma foldl_insert_dom l m :
  dom (foldl (fun m x => <[key x := value x]> m) m l) =
  list_to_set (key <$> l) ∪ dom m.
Proof.
  revert m. induction l as [|x l IH]; intros m; simpl.
  - set_solver.
  - rewrite IH, dom_insert_L. set_solver.
Qed.

(** An entry that is the only one under its key is the one kept. *)
Lemma find_last_unique l x :
  x ∈ l ->
  Forall (fun other => key other = key x -> other = x) l ->
  List.find (fun y => bool_decide (key y = key x)) (rev l) = Some x.
Proof.
  intros Hin Huniq.
  destruct (List.find _ (rev l)) as [y|] eqn:Hfind.
  - apply find_some in Hfind as [Hy Hid].
    apply in_rev, list_elem_of_In in Hy.
    apply bool_decide_eq_true in Hid. f_equal.
    by apply (proj1 (Forall_forall _ _) Huniq).
  - exfalso. eapply find_none in Hfind; [|apply in_rev; rewrite rev_involutive;
      apply list_elem_of_In, Hin].
    simpl in Hfind. by case_bool_decide.
Qed.

End InsertReduce.

Lemma aprsOfResponse_lookup resp k :
  aprsOfResponse resp !! k =
  (fun farm => BigNumber.decimalPlaces 2 (lpApr (farmsOneWeekAgo resp) farm))
    <$> List.find (has_id k) (rev (farmsAtLatestBlock resp)).
Proof.
  unfold aprsOfResponse.
  rewrite (foldl_insert_lookup id
             (fun farm => BigNumber.decimalPlaces 2 (lpApr (farmsOneWeekAgo resp) farm))).
  rewrite lookup_empty. fold (has_id k).
  by destruct (List.find _ _).
Qed.

Lemma aprsOfResponse_dom resp :
  dom (aprsOfResponse resp) = list_to_set (id <$> farmsAtLatestBlock resp).
Proof.
  unfold aprsOfResponse.
  rewrite (foldl_insert_dom id
             (fun farm => BigNumber.decimalPlaces 2 (lpApr (farmsOneWeekAgo resp) farm))).
  set_solver.
Qed.

(** C9. When the request succeeds, the keys of the map returned by
    [getAprsForFarmGroup] are exactly the ids of the latest-block snapshot;
    a requested address that the snapshot does not hold has no entry at all. *)
Theorem farm_group_keys_are_latest_ids (w : World) (addresses : list string)
    (blockWeekAgo : option Z) (chainId : ChainId) (resp : FarmsResponse) :
  request_farmsBulk w chainId addresses blockWeekAgo = Ok resp ->
  ∃ aprs : AprMap,
    getAprsForFarmGroup w addresses blockWeekAgo chainId = Ok aprs ∧
    dom aprs = list_to_set (id <$> farmsAtLatestBlock resp) ∧
    Forall (fun a => a ∉ id <$> farmsAtLatestBlock resp -> aprs !! a = None) addresses.
Proof.
  intros Hreq. unfold getAprsForFarmGroup. rewrite Hreq.
  eexists. split; [done|]. split; [apply aprsOfResponse_dom|].
  apply Forall_forall. intros a _ Ha.
  apply not_elem_of_dom. rewrite aprsOfResponse_dom. set_solver.
Qed.

Lemma find_only_entry farm l :
  onlyEntryForId farm l -> List.find (has_id (id farm)) (rev l) = Some farm.
Proof.
  intros [Hin Huniq]. by apply (find_last_unique id).
Qed.

Lemma lpApr_found week farm old :
  List.find (has_id (id farm)) week = Some old ->
  lpApr week farm =
  if BigNumber.gt0 (lpFeesInAYear farm old) then
    BigNumber.dividedBy (BigNumber.times (lpFeesInAYear farm old) (BigNumber.of_Z 100))
                        (BigNumber.of_string (reserveUSD farm))
  else BigNumber.zero.
Proof. intros H. unfold lpApr. fold (has_id (id farm)). by rewrite H. Qed.




Lemma farm_group_keys_are_latest_ids_witness :
  ∃ aprs : AprMap,
    getAprsForFarmGroup Sample.world [id Sample.farmA; "0xabsent"] (Some 5001) BITGERT
      = Ok aprs ∧
    dom aprs = list_to_set [id Sample.farmA] ∧
    Forall (fun a => a ∉ [id Sample.farmA] -> aprs !! a = None)
           [id Sample.farmA; "0xabsent"].
Proof.
  apply (farm_group_keys_are_latest_ids Sample.world
           [id Sample.farmA; "0xabsent"] (Some 5001) BITGERT
           (farmsBulkQuery Sample.pairs [id Sample.farmA; "0xabsent"] (Some 5001))).
  reflexivity.
Defined.

(** The annualized fees of finite volumes, and their APR quotient. *)
Lemma lpFeesInAYear_finite farm old vl vw :
  BigNumber.of_string (volumeUSD farm) = Fin vl ->
  BigNumber.of_string (volumeUSD old) = Fin vw ->
  ∃ fees, lpFeesInAYear farm old = Fin fees ∧
    (BigNumber.to_Q fees ==
     (BigNumber.to_Q vl - BigNumber.to_Q vw) * (25 # 10000) * (521429 # 10000))%Q.
Proof.
  intros Hl Hw. unfold lpFeesInAYear. rewrite Hl, Hw. simpl.
  eexists. split; [reflexivity|].
  rewrite !to_Q_mul_dec, to_Q_sub_dec. reflexivity.
Qed.

Lemma apr_quotient fees r :
  0 < BigNumber.mant fees -> BigNumber.mant r <> 0 ->
  ∃ q, BigNumber.dividedBy (BigNumber.times (Fin fees) (BigNumber.of_Z 100)) (Fin r) = Fin q ∧
       q = round_Q 20 (BigNumber.to_Q fees * 100 / BigNumber.to_Q r).
Proof.
  intros Hf Hr. simpl.
  assert (0 < BigNumber.mant (BigNumber.mul_dec fees (Dec 100 0))) as Hpos
    by (apply mul_dec_mant_pos; simpl; lia).
  destruct (BigNumber.mant r =? 0) eqn:Er; [apply Z.eqb_eq in Er; done|].
  destruct (BigNumber.mant (BigNumber.mul_dec fees (Dec 100 0)) =? 0) eqn:Ef;
    [apply Z.eqb_eq in Ef; lia|].
  eexists. split; [reflexivity|].
  rewrite div_dec_round_Q by done. apply round_Q_proper.
  rewrite to_Q_mul_dec. reflexivity.
Qed.

(** C1 (amended). For a farm held by both snapshots, with finite volumes, a
    finite non-zero reserve and annualized fees above zero, the map holds the
    quotient [(volumeUSD_latest - volumeUSD_weekAgo) * 0.0025 * 52.1429 * 100
    / reserveUSD_latest] rounded half-up to the 20 decimal places a
    bignumber.js division keeps, then rounded half-up to 2 decimal places. *)
Theorem farm_apr_rounded_at_20_then_2 (w : World) (addresses : list string)
    (blockWeekAgo : option Z) (chainId : ChainId) (resp : FarmsResponse)
    (farm old : SingleFarmResponse) (vl vw r : BigNumber.decimal) :
  request_farmsBulk w chainId addresses blockWeekAgo = Ok resp ->
  onlyEntryForId farm (farmsAtLatestBlock resp) ->
  List.find (has_id (id farm)) (farmsOneWeekAgo resp) = Some old ->
  BigNumber.of_string (volumeUSD farm) = Fin vl ->
  BigNumber.of_string (volumeUSD old) = Fin vw ->
  BigNumber.of_string (reserveUSD farm) = Fin r ->
  BigNumber.mant r <> 0 ->
  BigNumber.gt0 (lpFeesInAYear farm old) = true ->
  ∃ aprs : AprMap,
    getAprsForFarmGroup w addresses blockWeekAgo chainId = Ok aprs ∧
    aprs !! id farm =
      Some (Fin (round_Q 2 (BigNumber.to_Q
                   (round_Q 20 (aprFormula (BigNumber.to_Q vl) (BigNumber.to_Q vw)
                                           (BigNumber.to_Q r)))))).
Proof.
  intros Hreq Hfarm Hold Hvl Hvw Hr Hr0 Hfees.
  unfold getAprsForFarmGroup. rewrite Hreq. eexists. split; [done|].
  rewrite aprsOfResponse_lookup, (find_only_entry _ _ Hfarm). simpl.
  rewrite (lpApr_found _ _ _ Hold), Hfees, Hr.
  destruct (lpFeesInAYear_finite farm old vl vw Hvl Hvw) as (fees & Efees & Qfees).
  rewrite Efees in Hfees |- *. simpl in Hfees. apply Z.ltb_lt in Hfees.
  destruct (apr_quotient fees r Hfees Hr0) as (q & -> & ->).
  simpl. rewrite round_dec_round_Q. do 4 f_equal.
  apply round_Q_proper. unfold aprFormula. rewrite Qfees. reflexivity.
Qed.

Lemma farm_apr_rounded_at_20_then_2_witness :
  ∃ aprs : AprMap,
    getAprsForFarmGroup Sample.world [id Sample.farmA] (Some 5001) BITGERT = Ok aprs ∧
    aprs !! id Sample.farmA =
      Some (Fin (round_Q 2 (BigNumber.to_Q
                   (round_Q 20 (aprFormula (BigNumber.to_Q (Dec 5000005 1))
                                           (BigNumber.to_Q (Dec 4000005 1))
                                           (BigNumber.to_Q (Dec 1000000 0))))))).
Proof.
  apply (farm_apr_rounded_at_20_then_2 Sample.world [id Sample.farmA] (Some 5001) BITGERT
           (farmsBulkQuery Sample.pairs [id Sample.farmA] (Some 5001))
           Sample.farmA Sample.farmA_old).
  - reflexivity.
  - split; by_decide.
  - reflexivity.
  - reflexivity.
  - reflexivity.
  - reflexivity.
  - simpl. lia.
  - reflexivity.
Defined.

Example farmA_apr :
  round_Q 2 (BigNumber.to_Q
    (round_Q 20 (aprFormula (BigNumber.to_Q (Dec 5000005 1)) (BigNumber.to_Q (Dec 4000005 1))
                            (BigNumber.to_Q (Dec 1000000 0))))) = Dec 13 1.
Proof. reflexivity. Qed.

(** C1 (as stated) fails: with volumes 2500 and 1500 and a reserve of
    2607145.000000000000001 the exact quotient is just below 0.005 and a
    single rounding gives 0, but the division first rounds it up to 0.005 at
    20 places and the map holds 0.01. *)
Lemma farm_apr_rounded_once_counterexample :
  (∃ aprs : AprMap,
     getAprsForFarmGroup Sample.world_D [id Sample.farmD] (Some 5001) BITGERT = Ok aprs ∧
     aprs !! id Sample.farmD = Some (Fin (Dec 1 2))) ∧
  round_Q 2 (aprFormula 2500 1500 (2607145000000000000001 # 1000000000000000)) = Dec 0 0 ∧
  ¬ aprRoundedOnce.
Proof.
  split; [|split].
  - eexists. split; [reflexivity|]. vm_compute. reflexivity.
  - vm_compute. reflexivity.
  - intros claim.
    destruct (claim Sample.world_D [id Sample.farmD] (Some 5001) BITGERT
                {| farmsAtLatestBlock := [Sample.farmD]; farmsOneWeekAgo := [Sample.farmD_old] |}
                Sample.farmD Sample.farmD_old
                (Dec 2500 0) (Dec 1500 0) (Dec 2607145000000000000001 15))
      as (aprs & Hrun & Hval).
    + reflexivity.
    + split; by_decide.
    + reflexivity.
    + reflexivity.
    + reflexivity.
    + reflexivity.
    + simpl. lia.
    + reflexivity.
    + injection Hrun as <-. vm_compute in Hval. discriminate Hval.
Qed.

(** ** The configuration loader *)

Lemma getFarmConfig_result w chainId st :
  fst (getFarmConfig w chainId st) = Ok (farmConfigOf w chainId).
Proof.
  unfold getFarmConfig, farmConfigOf, try_catch, lift, mbind, M_bind.
  destruct (import_farms w chainId); simpl; [done|].
  by destruct (logged st).
Qed.

Lemma getFarmConfig_failure w chainId st e :
  import_farms w chainId = Throw e ->
  getFarmConfig w chainId st =
  (Ok [],
   if logged st then st
   else {| logged := true;
           console := console st ++
             [{| level := LogError;
                 args := ["Cannot get farm config"; e; pretty (chain_number chainId)] |}];
           written := written st |}).
Proof.
  intros H. unfold getFarmConfig, try_catch, lift, mbind, M_bind. rewrite H. simpl.
  by destruct (logged st).
Qed.

Lemma getFarmConfig_success w chainId st farms :
  import_farms w chainId = Ok farms ->
  getFarmConfig w chainId st =
  (Ok (List.filter (fun f => negb (bool_decide (pid f = None))) farms), st).
Proof.
  intros H. unfold getFarmConfig, try_catch, lift, mbind, M_bind. by rewrite H.
Qed.

Lemma getFarmConfig_loggedOnce w chainId st :
  loggedOnce st -> loggedOnce (snd (getFarmConfig w chainId st)).
Proof.
  intros [Hle Hzero]. destruct (import_farms w chainId) as [farms|e] eqn:E.
  - rewrite (getFarmConfig_success _ _ _ _ E). by split.
  - rewrite (getFarmConfig_failure _ _ _ _ E). simpl.
    destruct (logged st) eqn:El; [split; [done|intros ?; congruence]|].
    unfold loggedOnce, configErrors in *. simpl.
    rewrite List.filter_app, length_app. simpl. split; [|done].
    rewrite Hzero by done. simpl. lia.
Qed.

(** C8. Whatever chains [getFarmConfig] is invoked for, one invocation after
    the other from the start of the process: an invocation whose import
    fails returns the empty farm list (no invocation throws), and the console
    holds at most one "Cannot get farm config" entry in the end. *)
Theorem config_failure_logged_once (w : World) (chains : list ChainId) :
  let '(results, st) := getFarmConfigs w chains initial_state in
  Forall2 (fun chainId r =>
             match import_farms w chainId with
             | Throw _ => r = Ok []
             | Ok _ => ∃ farms, r = Ok farms
             end) chains results ∧
  (configErrors st <= 1)%nat.
Proof.
  assert (loggedOnce initial_state) as Hinit by (split; [compute; lia|done]).
  revert Hinit. generalize initial_state.
  induction chains as [|c chains IH]; intros st0 Hinv; simpl.
  - split; [constructor|apply Hinv].
  - pose proof (getFarmConfig_result w c st0) as Hres.
    pose proof (getFarmConfig_loggedOnce w c st0 Hinv) as Hinv1.
    destruct (getFarmConfig w c st0) as [r st1]. simpl in Hres, Hinv1.
    specialize (IH st1 Hinv1).
    destruct (getFarmConfigs w chains st1) as [rs st2].
    destruct IH as [IH1 IH2]. split; [|done].
    constructor; [|done]. subst r. unfold farmConfigOf.
    destruct (import_farms w c); eauto.
Qed.

Example config_failure_logged_once_sample :
  getFarmConfigs Sample.world_without_config [BITGERT; CORE; BITGERT] initial_state =
  ([Ok []; Ok []; Ok []],
   {| logged := true;
      console := [{| level := LogError;
                     args := ["Cannot get farm config"; "Error: Cannot find module"; "32520"] |}];
      written := [] |}).
Proof. reflexivity. Qed.

(** ** The block resolver *)



Lemma getBlockAtTimestamp_request_failure w timestamp chainId ep e :
  BLOCKS_CLIENT_WITH_CHAIN w chainId = Some ep -> ep ≠ "" ->
  request_getBlock w ep timestamp (timestamp + 600) = Throw e ->
  getBlockAtTimestamp w timestamp chainId =
  Throw (new_Error ("Failed to fetch block number for " +:+ pretty timestamp +:+ EOL +:+ e)).
Proof.
  intros Hc Hne Hr. unfold getBlockAtTimestamp. rewrite Hc.
  rewrite bool_decide_eq_false_2 by done. simpl.
  unfold mbind, Result_bind. by rewrite Hr.
Qed.



Example block_resolver_sample :
  getBlockAtTimestamp Sample.world 1699395200 BITGERT = Ok (Some 5001) ∧
  getBlockAtTimestamp Sample.world 1690000000 BITGERT
  = Throw (new_Error ("Failed to fetch block number for 1690000000" +:+ EOL +:+
                      "TypeError: Cannot read properties of undefined (reading 'number')")).
Proof. split; reflexivity. Qed.

(** ** Chunking *)

Section Chunk.

Context {A : Type}.
Implicit Types (l : list A) (size fuel : nat).

Lemma chunk_fuel_spec size fuel l :
  (0 < size)%nat -> (length l <= fuel)%nat ->
  concat (chunk_fuel fuel l size) = l ∧
  Forall (fun g => (length g <= size)%nat) (chunk_fuel fuel l size).
Proof.
  intros Hsize. revert l. induction fuel as [|fuel IH]; intros l Hlen.
  - destruct l; simpl in *; [by split|lia].
  - destruct l as [|x l]; [by split|].
    cbn [chunk_fuel].
    destruct (IH (drop size (x :: l))) as [Hcat Hall].
    { rewrite length_drop. simpl in *. lia. }
    split.
    + cbn [concat]. rewrite Hcat. apply take_drop.
    + constructor; [|done]. rewrite length_take. lia.
Qed.

Lemma concat_chunk l size : (0 < size)%nat -> concat (chunk l size) = l.
Proof.
  intros H. unfold chunk. destruct size; [lia|].
  by apply chunk_fuel_spec.
Qed.

Lemma chunk_group_length l size :
  Forall (fun g => (length g <= size)%nat) (chunk l size).
Proof.
  unfold chunk. destruct size; [constructor|].
  apply chunk_fuel_spec; lia.
Qed.

End Chunk.

(** ** Groups of at most 30 addresses against one snapshot *)

Section Groups.

Implicit Types (g addresses : list string) (store : list SingleFarmResponse).

Lemma filter_id_in_elem g store p :
  p ∈ List.filter (id_in g) store <-> p ∈ store ∧ id p ∈ g.
Proof.
  unfold id_in. split.
  - intros H. apply list_elem_of_In, filter_In in H as [H1 H2].
    apply bool_decide_eq_true in H2. split; [by apply list_elem_of_In|done].
  - intros [H1 H2]. apply list_elem_of_In, filter_In.
    split; [by apply list_elem_of_In|by apply bool_decide_eq_true].
Qed.

Lemma filter_id_in_NoDup g store :
  NoDup (id <$> store) -> NoDup (id <$> List.filter (id_in g) store).
Proof.
  induction store as [|x store IH]; simpl; [done|].
  rewrite NoDup_cons. intros [Hx Hnd].
  destruct (id_in g x); [|by apply IH].
  simpl. apply NoDup_cons. split; [|by apply IH].
  intros Hin. apply Hx. apply list_elem_of_fmap in Hin as (y & -> & Hy).
  apply list_elem_of_fmap. exists y. split; [done|].
  by apply filter_id_in_elem in Hy as [Hy _].
Qed.

(** No more entities than addresses asked for: [first: 30] cuts nothing
    from the answer to a group. *)
Lemma take_filter_id_in g store :
  NoDup (id <$> store) -> (length g <= 30)%nat ->
  take 30 (List.filter (id_in g) store) = List.filter (id_in g) store.
Proof.
  intros Hnd Hlen. apply take_ge.
  rewrite <- (length_fmap id).
  etransitivity; [|exact Hlen].
  apply submseteq_length, NoDup_submseteq; [by apply filter_id_in_NoDup|].
  intros k Hk. apply list_elem_of_fmap in Hk as (y & -> & Hy).
  by apply filter_id_in_elem in Hy as [_ Hy].
Qed.

Lemma find_filter_id_in g store k :
  List.find (has_id k) (List.filter (id_in g) store) =
  if bool_decide (k ∈ g) then List.find (has_id k) store else None.
Proof.
  induction store as [|x store IH]; simpl; [by case_bool_decide|].
  destruct (id_in g x) eqn:Ex; simpl; rewrite IH;
    destruct (has_id k x) eqn:Ek; try done.
  - apply bool_decide_eq_true in Ex, Ek. subst k.
    by rewrite bool_decide_eq_true_2.
  - apply bool_decide_eq_false in Ex. apply bool_decide_eq_true in Ek. subst k.
    by rewrite bool_decide_eq_false_2.
Qed.

Lemma filter_rev {B} (f : B -> bool) (l : list B) :
  List.filter f (rev l) = rev (List.filter f l).
Proof.
  induction l as [|x l IH]; simpl; [done|].
  rewrite List.filter_app, IH. simpl. destruct (f x); simpl; [done|].
  by rewrite app_nil_r.
Qed.

(** The APRs of a filtered snapshot are those of the whole snapshot, on the
    addresses of the filter. *)
Lemma aprs_filtered_lookup g latest weekAgo k :
  aprsOfResponse {| farmsAtLatestBlock := List.filter (id_in g) latest;
                    farmsOneWeekAgo := List.filter (id_in g) weekAgo |} !! k =
  if bool_decide (k ∈ g) then aprOfId latest weekAgo k else None.
Proof.
  rewrite aprsOfResponse_lookup. simpl.
  rewrite <- filter_rev, find_filter_id_in. unfold aprOfId.
  case_bool_decide as Hg; [|done].
  destruct (List.find (has_id k) (rev latest)) as [farm|] eqn:E; [|done].
  simpl. do 2 f_equal.
  apply find_some in E as [_ Hid]. apply bool_decide_eq_true in Hid. subst k.
  unfold lpApr. fold (has_id (id farm)).
  by rewrite find_filter_id_in, bool_decide_eq_true_2.
Qed.

Variables (w : World) (sg : PairsSubgraph) (chainId : ChainId) (blockWeekAgo : option Z).

Hypothesis served : ∀ g,
  request_farmsBulk w chainId g blockWeekAgo = Ok (farmsBulkQuery sg g blockWeekAgo).
Hypothesis latest_ids : NoDup (id <$> pairsLatest sg).
Hypothesis weekAgo_ids : NoDup (id <$> pairsAtBlock sg blockWeekAgo).

Lemma group_aprs g :
  (length g <= 30)%nat ->
  ∃ aprs : AprMap,
    getAprsForFarmGroup w g blockWeekAgo chainId = Ok aprs ∧
    ∀ k, aprs !! k =
         if bool_decide (k ∈ g)
         then aprOfId (pairsLatest sg) (pairsAtBlock sg blockWeekAgo) k else None.
Proof.
  intros Hlen. unfold getAprsForFarmGroup. rewrite served.
  eexists. split; [done|]. intros k. unfold farmsBulkQuery.
  rewrite !take_filter_id_in by done. apply aprs_filtered_lookup.
Qed.

Lemma fetchGroups_aprs groups (allAprs : AprMap) :
  Forall (fun g => (length g <= 30)%nat) groups ->
  ∃ aprs : AprMap,
    fetchGroups w groups blockWeekAgo chainId allAprs = Ok aprs ∧
    ∀ k, aprs !! k =
         match (if bool_decide (k ∈ concat groups)
                then aprOfId (pairsLatest sg) (pairsAtBlock sg blockWeekAgo) k
                else None) with
         | Some v => Some v
         | None => allAprs !! k
         end.
Proof.
  intros Hall. revert allAprs.
  induction Hall as [|g groups Hg Hall IH]; intros allAprs; simpl.
  - eexists. split; [done|]. intros k.
    first [done | by rewrite bool_decide_eq_false_2 by apply not_elem_of_nil].
  - destruct (group_aprs g Hg) as (aprs & -> & Hlook). simpl.
    destruct (IH (aprs ∪ allAprs)) as (res & -> & Hres).
    eexists. split; [done|]. intros k. rewrite Hres, lookup_union, Hlook.
    destruct (decide (k ∈ g)) as [Hk|Hk];
      destruct (decide (k ∈ concat groups)) as [Hc|Hc].
    all: rewrite ?(bool_decide_eq_true_2 (k ∈ g)), ?(bool_decide_eq_false_2 (k ∈ g)),
           ?(bool_decide_eq_true_2 (k ∈ concat groups)),
           ?(bool_decide_eq_false_2 (k ∈ concat groups)) by done.
    all: pose proof (elem_of_app g (concat groups) k) as Happ.
    all: first [rewrite (bool_decide_eq_true_2 (k ∈ g ++ concat groups)) by tauto
               |rewrite (bool_decide_eq_false_2 (k ∈ g ++ concat groups)) by tauto].
    all: destruct (aprOfId (pairsLatest sg) (pairsAtBlock sg blockWeekAgo) k);
      destruct (allAprs !! k); done.
Qed.

End Groups.

(** C3. Against one snapshot of the subgraph (ids identify its entities),
    fetching the addresses in groups of at most 30, one group after the
    other, and merging the maps with later entries overriding earlier ones,
    succeeds with the map that a single call without the bound of 30 gives
    for all the addresses. *)
Theorem chunked_groups_equal_unbounded (w : World) (sg : PairsSubgraph) (chainId : ChainId)
    (blockWeekAgo : option Z) (addresses : list string) :
  (∀ g, request_farmsBulk w chainId g blockWeekAgo = Ok (farmsBulkQuery sg g blockWeekAgo)) ->
  NoDup (id <$> pairsLatest sg) ->
  NoDup (id <$> pairsAtBlock sg blockWeekAgo) ->
  fetchGroups w (chunk addresses 30) blockWeekAgo chainId ∅
  = Ok (aprsUnbounded sg addresses blockWeekAgo).
Proof.
  intros Hserved Hl Hw.
  destruct (fetchGroups_aprs w sg chainId blockWeekAgo Hserved Hl Hw
              (chunk addresses 30) ∅ (chunk_group_length addresses 30))
    as (aprs & -> & Hlook).
  f_equal. apply map_eq. intros k.
  rewrite Hlook, concat_chunk by lia. unfold aprsUnbounded.
  rewrite aprs_filtered_lookup, lookup_empty.
  by destruct (if bool_decide (k ∈ addresses) then _ else _).
Qed.

Lemma chunked_groups_equal_unbounded_witness :
  fetchGroups Sample.world (chunk [id Sample.farmA; id Sample.farmB; "0xabsent"] 30)
              (Some 5001) BITGERT ∅
  = Ok (aprsUnbounded Sample.pairs [id Sample.farmA; id Sample.farmB; "0xabsent"] (Some 5001)).
Proof.
  apply (chunked_groups_equal_unbounded Sample.world Sample.pairs BITGERT (Some 5001)).
  - intros g. reflexivity.
  - by_decide.
  - by_decide.
Defined.

(** ** The stable-swap calculator *)

Lemma getAprsForStableFarm_returns w stableFarm chainId st v :
  stableAprAttempt w stableFarm chainId = Ok v ->
  getAprsForStableFarm w stableFarm chainId st = (Ok v, st).
Proof. intros H. unfold getAprsForStableFarm, try_catch, lift. by rewrite H. Qed.

(** A failure that throws is caught: one console entry and the value 0. *)
Lemma getAprsForStableFarm_caught w stableFarm chainId st e :
  stableAprAttempt w stableFarm chainId = Throw e ->
  getAprsForStableFarm w stableFarm chainId st =
  (Ok BigNumber.zero,
   {| logged := logged st;
      console := console st ++
        [{| level := LogError; args := [e; "[LP APR Update] getAprsForStableFarm error"] |}];
      written := written st |}).
Proof. intros H. unfold getAprsForStableFarm, try_catch, lift. by rewrite H. Qed.

Lemma getAprsForStableFarm_result w stableFarm chainId st :
  fst (getAprsForStableFarm w stableFarm chainId st) = Ok (stableAprValue w stableFarm chainId).
Proof.
  unfold stableAprValue.
  destruct (stableAprAttempt w stableFarm chainId) as [v|e] eqn:E.
  - by rewrite (getAprsForStableFarm_returns _ _ _ _ _ E).
  - by rewrite (getAprsForStableFarm_caught _ _ _ _ _ E).
Qed.

Lemma stableAprsOf_result w farms chainId st :
  fst (stableAprsOf w farms chainId st)
  = Ok (map (fun f => stableAprValue w f chainId) farms).
Proof.
  revert st. induction farms as [|f farms IH]; intros st; simpl; [done|].
  unfold mbind, M_bind.
  pose proof (getAprsForStableFarm_result w f chainId st) as Hf.
  destruct (getAprsForStableFarm w f chainId st) as [r st1]. simpl in Hf. subst r.
  specialize (IH st1).
  destruct (stableAprsOf w farms chainId st1) as [rs st2]. simpl in IH. subst rs.
  done.
Qed.

Lemma stableAprsMapOf_map farms (v : SerializedFarmConfig -> BigNumber.t) :
  stableAprsMapOf farms (map v farms) =
  foldl (fun result farm => <[lpAddress farm := BigNumber.decimalPlaces 5 (v farm)]> result)
        ∅ farms.
Proof.
  unfold stableAprsMapOf. generalize (∅ : AprMap).
  induction farms as [|f farms IH]; intros m; simpl; [done|]. apply IH.
Qed.

(** C5 (the failing case). With no virtual price in the one-day-ago answer,
    nothing throws inside [getAprsForStableFarm]: the missing price reads as
    NaN, the function returns NaN, not 0, and logs nothing. *)
Lemma stable_farm_missing_price_returns_NaN :
  getAprsForStableFarm (Sample.world_with_prices (Ok (Sample.prices ["1.02"] [])))
                       Sample.stableFarm BITGERT initial_state
  = (Ok NaN, initial_state).
Proof. reflexivity. Qed.

Example stable_farm_request_error_returns_zero :
  getAprsForStableFarm (Sample.world_with_prices (Throw "Error: GraphQL Error"))
                       Sample.stableFarm BITGERT initial_state
  = (Ok BigNumber.zero,
     {| logged := false;
        console := [{| level := LogError;
                       args := ["Error: GraphQL Error";
                                "[LP APR Update] getAprsForStableFarm error"] |}];
        written := [] |}).
Proof. reflexivity. Qed.

(** ** The task of a chain *)

Lemma fetchAndUpdateChain_inv w chainId st allAprs st' :
  fetchAndUpdateChain w chainId st = (Ok allAprs, st') ->
  ∃ blockWeekAgo normalAprs,
    getBlockAtTimestamp w (getWeekAgoTimestamp w) chainId = Ok blockWeekAgo ∧
    fetchGroups w (chunk (map (fun farm => toLowerCase (lpAddress farm))
                              (normalFarms (splitOf w chainId))) 30)
                blockWeekAgo chainId ∅ = Ok normalAprs ∧
    allAprs =
      stableAprsMapOf (stableFarms (splitOf w chainId))
        (map (fun f => stableAprValue w f chainId) (stableFarms (splitOf w chainId)))
      ∪ normalAprs.
Proof.
  unfold fetchAndUpdateChain, mbind, M_bind.
  pose proof (getFarmConfig_result w chainId st) as Hcfg.
  destruct (getFarmConfig w chainId st) as [r st1]. simpl in Hcfg. subst r.
  fold (splitOf w chainId). cbn [console_log lift].
  destruct (getBlockAtTimestamp w (getWeekAgoTimestamp w) chainId) as [b|e] eqn:Eb;
    [|done].
  destruct (fetchGroups w _ b chainId ∅) as [normalAprs|e] eqn:Eg; [|done].
  intros H. exists b, normalAprs. split; [done|]. split; [done|].
  revert H. unfold try_catch, writeFile, console_log, mret, M_ret.
  destruct (stableFarms (splitOf w chainId)) as [|f fs] eqn:Es.
  - intros H. injection H as <- _. unfold stableAprsMapOf. simpl.
    by rewrite (left_id_L ∅ (∪)).
  - match goal with
    | |- context [stableAprsOf w (f :: fs) chainId ?s] =>
        pose proof (stableAprsOf_result w (f :: fs) chainId s) as Hs;
        destruct (stableAprsOf w (f :: fs) chainId s) as [rs st3]
    end.
    simpl in Hs. subst rs. intros H. by injection H as <- _.
Qed.




(** ** Lower case *)






Lemma sample_run_completes :
  match fst (fetchAndUpdateChain Sample.world BITGERT initial_state) with
  | Ok _ => True
  | Throw _ => False
  end.
Proof. vm_compute. exact I. Qed.

Lemma sample_run :
  fetchAndUpdateChain Sample.world BITGERT initial_state = (Ok sample_aprs, sample_state).
Proof.
  unfold sample_aprs, sample_state. pose proof sample_run_completes as H.
  destruct (fetchAndUpdateChain Sample.world BITGERT initial_state) as [[m|e] st];
    [reflexivity|contradiction].
Qed.


(** ** The stable-farm formula *)

Lemma dividedBy_finite (a b : BigNumber.decimal) :
  BigNumber.mant b <> 0 ->
  BigNumber.dividedBy (Fin a) (Fin b)
  = Fin (round_Q 20 (BigNumber.to_Q a / BigNumber.to_Q b)).
Proof.
  intros Hb. pose proof (div_dec_round_Q a b Hb) as E.
  change BigNumber.DECIMAL_PLACES with 20%nat in E. rewrite <- E.
  cbn [BigNumber.dividedBy].
  destruct (BigNumber.mant b =? 0) eqn:Eb; [apply Z.eqb_eq in Eb; done|].
  destruct (BigNumber.mant a =? 0) eqn:Ea; [|done].
  apply Z.eqb_eq in Ea. unfold BigNumber.div_dec. rewrite Ea.
  unfold BigNumber.round_div. rewrite !Z.mul_0_l. reflexivity.
Qed.

Lemma pow_minus_one_finite (d : BigNumber.decimal) (k : nat) :
  ∃ apr, BigNumber.minus (BigNumber.pow (Fin d) k) (BigNumber.of_Z 1) = Fin apr ∧
         (BigNumber.to_Q apr == BigNumber.to_Q d ^ Z.of_nat k - 1)%Q.
Proof.
  eexists. split; [reflexivity|].
  rewrite to_Q_sub_dec, to_Q_pow_dec. reflexivity.
Qed.

Lemma stableAprAttempt_finite (w : World) (stableFarm : SerializedFarmConfig)
    (chainId : ChainId) (blockDayAgo : option Z) (resp : VirtualPriceResponse)
    (vl vd : BigNumber.decimal) :
  getBlockAtTimestamp w (now w - 86400) chainId = Ok blockDayAgo ->
  request_virtualPriceStableSwap w (stableSwapAddress stableFarm) blockDayAgo = Ok resp ->
  BigNumber.of_field (firstVirtualPrice (virtualPriceAtLatestBlock resp)) = Fin vl ->
  BigNumber.of_field (firstVirtualPrice (virtualPriceOneDayAgo resp)) = Fin vd ->
  BigNumber.mant vd <> 0 ->
  ∃ apr : BigNumber.decimal,
    stableAprAttempt w stableFarm chainId = Ok (Fin apr) ∧
    (BigNumber.to_Q apr ==
     stableAprFormula (BigNumber.to_Q (round_Q 20 (BigNumber.to_Q vl / BigNumber.to_Q vd))))%Q.
Proof.
  intros Hblock Hreq Hvl Hvd Hvd0.
  destruct (pow_minus_one_finite
              (round_Q 20 (BigNumber.to_Q vl / BigNumber.to_Q vd)) 365) as (apr & Eapr & Qapr).
  exists apr. split; [|exact Qapr].
  unfold stableAprAttempt. rewrite Hblock. unfold mbind, Result_bind. rewrite Hreq.
  cbv zeta. rewrite Hvl, Hvd, (dividedBy_finite vl vd Hvd0). by rewrite Eapr.
Qed.



Example sample_stable_apr_stored :
  storedApr Sample.world BITGERT (lpAddress Sample.stableFarm) = Some (Fin (Dec 3678343 5)).
Proof. vm_compute. reflexivity. Qed.


(** *** The exact formula at a ratio just below 1.1 *)









#[local] Opaque Z.pow.






#[local] Transparent Z.pow.


(** * Further properties of the script *)

(** ** Signs and decimal places of the decimal operations *)

Section Places.

Import BigNumber.

Lemma normalize_aux_scale m s : (scale (normalize_aux m s) <= s)%nat.
Proof.
  revert m. induction s as [|s IH]; intros m; simpl; [done|].
  destruct (m mod 10 =? 0); simpl; [|done]. specialize (IH (m / 10)). lia.
Qed.

Lemma normalize_aux_nonneg m s : 0 <= m -> 0 <= mant (normalize_aux m s).
Proof.
  revert m. induction s as [|s IH]; intros m Hm; simpl; [done|].
  destruct (m mod 10 =? 0); simpl; [|done]. apply IH. by apply Z.div_pos.
Qed.

Lemma normalize_aux_pos m s : 0 < m -> 0 < mant (normalize_aux m s).
Proof.
  revert m. induction s as [|s IH]; intros m Hm; simpl; [done|].
  destruct (m mod 10 =? 0) eqn:E; simpl; [|done]. apply IH.
  apply Z.eqb_eq in E. pose proof (Z.div_mod m 10). lia.
Qed.

Lemma round_div_nonneg n (d : Z) : 0 <= n -> 0 < d -> 0 <= round_div n d.
Proof.
  intros Hn Hd. unfold round_div.
  rewrite (Z.abs_eq n), (Z.abs_eq d), (Z.sgn_pos d) by lia.
  assert (0 <= (2 * n + d) / (2 * d)) by (apply Z.div_pos; lia).
  destruct (Z.eq_dec n 0) as [->|]; [simpl; lia|]. rewrite Z.sgn_pos by lia. lia.
Qed.

Lemma round_dec_scale dp (d : decimal) : (scale (round_dec dp d) <= dp)%nat.
Proof.
  unfold round_dec, normalize. destruct (scale d <=? dp)%nat eqn:E; simpl.
  - apply Nat.leb_le in E. pose proof (normalize_aux_scale (mant d) (scale d)). lia.
  - apply normalize_aux_scale.
Qed.

Lemma round_dec_nonneg dp (d : decimal) : 0 <= mant d -> 0 <= mant (round_dec dp d).
Proof.
  intros Hd. unfold round_dec, normalize. destruct (scale d <=? dp)%nat; simpl.
  - by apply normalize_aux_nonneg.
  - apply normalize_aux_nonneg, round_div_nonneg; [done|apply pow10_pos].
Qed.

Lemma div_dec_nonneg (a b : decimal) : 0 <= mant a -> 0 < mant b -> 0 <= mant (div_dec a b).
Proof.
  intros Ha Hb. unfold div_dec, normalize. cbn [mant scale].
  pose proof (pow10_pos (scale a)). pose proof (pow10_pos (scale b)).
  pose proof (pow10_pos DECIMAL_PLACES).
  apply normalize_aux_nonneg, round_div_nonneg; nia.
Qed.

Lemma decimalPlaces_placesAtMost dp x : placesAtMost dp (decimalPlaces dp x).
Proof. destruct x; simpl; [done..|]. apply round_dec_scale. Qed.

End Places.

(** ** Values of the normal-farm map *)

Section ReduceForall.

Context {A : Type} (key : A -> string) (value : A -> BigNumber.t) (P : BigNumber.t -> Prop).

Lemma foldl_insert_Forall (l : list A) (m : AprMap) :
  map_Forall (fun _ v => P v) m ->
  Forall (fun x => P (value x)) l ->
  map_Forall (fun _ v => P v) (foldl (fun m x => <[key x := value x]> m) m l).
Proof.
  intros Hm Hl. revert m Hm. induction Hl as [|x l Hx Hl IH]; intros m Hm; simpl; [done|].
  apply IH. by apply map_Forall_insert_2.
Qed.

End ReduceForall.

Lemma union_Forall (P : BigNumber.t -> Prop) (m1 m2 : AprMap) :
  map_Forall (fun _ v => P v) m1 -> map_Forall (fun _ v => P v) m2 ->
  map_Forall (fun _ v => P v) (m1 ∪ m2).
Proof.
  intros H1 H2 k v Hk. apply lookup_union_Some_raw in Hk as [Hk|[_ Hk]].
  - by apply (H1 k).
  - by apply (H2 k).
Qed.

Lemma aprsOfResponse_Forall (P : BigNumber.t -> Prop) resp :
  Forall (fun farm => P (BigNumber.decimalPlaces 2 (lpApr (farmsOneWeekAgo resp) farm)))
         (farmsAtLatestBlock resp) ->
  map_Forall (fun _ v => P v) (aprsOfResponse resp).
Proof.
  intros H. unfold aprsOfResponse.
  apply (foldl_insert_Forall id
           (fun farm => BigNumber.decimalPlaces 2 (lpApr (farmsOneWeekAgo resp) farm)) P);
    [apply map_Forall_empty|done].
Qed.

Lemma zero_nonNegativeAt dp : nonNegativeAt dp (BigNumber.decimalPlaces dp BigNumber.zero).
Proof.
  eexists. split; [reflexivity|]. split.
  - by apply round_dec_nonneg.
  - apply round_dec_scale.
Qed.

Lemma lpApr_nonNegative week farm :
  finiteVolume farm -> positiveReserve farm -> Forall finiteVolume week ->
  nonNegativeAt 2 (BigNumber.decimalPlaces 2 (lpApr week farm)).
Proof.
  intros [vl Hvl] (r & Hr & Hpos) Hweek.
  destruct (List.find (has_id (id farm)) week) as [old|] eqn:Hfind.
  - rewrite (lpApr_found _ _ _ Hfind).
    apply find_some in Hfind as [Hin _].
    apply list_elem_of_In in Hin.
    destruct (proj1 (Forall_forall _ _) Hweek old Hin) as [vw Hvw].
    destruct (lpFeesInAYear_finite farm old vl vw Hvl Hvw) as (fees & -> & _).
    destruct (BigNumber.gt0 (Fin fees)) eqn:Hgt; [|apply zero_nonNegativeAt].
    simpl in Hgt. apply Z.ltb_lt in Hgt. rewrite Hr.
    destruct (apr_quotient fees r Hgt ltac:(lia)) as (q & Hq & _).
    assert (BigNumber.dividedBy (BigNumber.times (Fin fees) (BigNumber.of_Z 100)) (Fin r)
            = Fin (BigNumber.div_dec (BigNumber.mul_dec fees (Dec 100 0)) r)) as ->.
    { cbn [BigNumber.times BigNumber.of_Z BigNumber.dividedBy].
      destruct (BigNumber.mant r =? 0) eqn:Er; [apply Z.eqb_eq in Er; lia|].
      assert (0 < BigNumber.mant (BigNumber.mul_dec fees (Dec 100 0))) as Hm
        by (apply mul_dec_mant_pos; simpl; lia).
      destruct (BigNumber.mant (BigNumber.mul_dec fees (Dec 100 0)) =? 0) eqn:Ef;
        [apply Z.eqb_eq in Ef; lia|done]. }
    eexists. split; [reflexivity|]. split.
    + apply round_dec_nonneg, div_dec_nonneg; [|done].
      apply Z.lt_le_incl, mul_dec_mant_pos. simpl. lia.
    + apply round_dec_scale.
  - unfold lpApr. fold (has_id (id farm)). rewrite Hfind. apply zero_nonNegativeAt.
Qed.

(** X1. When every entry of the two snapshots carries a finite volume and
    every entry of the latest one a positive finite reserve, every APR of the
    map is a finite number, not negative, with at most 2 decimal places. *)
Theorem normal_aprs_nonnegative (w : World) (addresses : list string)
    (blockWeekAgo : option Z) (chainId : ChainId) (resp : FarmsResponse) :
  request_farmsBulk w chainId addresses blockWeekAgo = Ok resp ->
  Forall (fun f => finiteVolume f ∧ positiveReserve f) (farmsAtLatestBlock resp) ->
  Forall finiteVolume (farmsOneWeekAgo resp) ->
  ∃ aprs : AprMap,
    getAprsForFarmGroup w addresses blockWeekAgo chainId = Ok aprs ∧
    map_Forall (fun _ v => nonNegativeAt 2 v) aprs.
Proof.
  intros Hreq Hlatest Hweek. unfold getAprsForFarmGroup. rewrite Hreq.
  eexists. split; [done|]. apply aprsOfResponse_Forall.
  eapply Forall_impl; [exact Hlatest|]. intros farm [Hv Hr].
  by apply lpApr_nonNegative.
Qed.

Lemma normal_aprs_nonnegative_witness :
  ∃ aprs : AprMap,
    getAprsForFarmGroup Sample.world [id Sample.farmA; id Sample.farmB] (Some 5001) BITGERT
      = Ok aprs ∧
    map_Forall (fun _ v => nonNegativeAt 2 v) aprs.
Proof.
  apply (normal_aprs_nonnegative Sample.world _ _ _
           (farmsBulkQuery Sample.pairs [id Sample.farmA; id Sample.farmB] (Some 5001))).
  - reflexivity.
  - repeat constructor; eexists; first [reflexivity | split; [reflexivity|reflexivity]].
  - repeat constructor; eexists; reflexivity.
Defined.



(** ** The stable farms as a batch *)

Lemma stableAprsOf_run w farms chainId st :
  ∃ st',
    stableAprsOf w farms chainId st
    = (Ok (map (fun f => stableAprValue w f chainId) farms), st') ∧
    logged st' = logged st ∧ written st' = written st ∧
    console st' = console st ++ omap (stableErrorEntry w chainId) farms.
Proof.
  revert st. induction farms as [|f farms IH]; intros st.
  - exists st. simpl. by rewrite app_nil_r.
  - cbn [stableAprsOf]. unfold mbind, M_bind.
    assert (∃ st1, getAprsForStableFarm w f chainId st
                   = (Ok (stableAprValue w f chainId), st1) ∧
                   logged st1 = logged st ∧ written st1 = written st ∧
                   console st1 = console st ++ option_list (stableErrorEntry w chainId f))
      as (st1 & -> & Hl1 & Hw1 & Hc1).
    { unfold stableAprValue, stableErrorEntry.
      destruct (stableAprAttempt w f chainId) as [v|e] eqn:E.
      - exists st. rewrite (getAprsForStableFarm_returns _ _ _ _ _ E).
        simpl. by rewrite app_nil_r.
      - eexists. rewrite (getAprsForStableFarm_caught _ _ _ _ _ E). done. }
    destruct (IH st1) as (st2 & -> & Hl2 & Hw2 & Hc2).
    exists st2. split; [done|]. split; [congruence|]. split; [congruence|].
    rewrite Hc2, Hc1, <- app_assoc. f_equal. simpl.
    by destruct (stableErrorEntry w chainId f).
Qed.


(** ** The loop over the groups *)

Lemma fetchGroups_completes w groups blockWeekAgo chainId (allAprs : AprMap) :
  (∃ aprs, fetchGroups w groups blockWeekAgo chainId allAprs = Ok aprs)
  ↔ Forall (groupAnswered w chainId blockWeekAgo) groups.
Proof.
  revert allAprs. induction groups as [|g groups IH]; intros allAprs; simpl.
  - split; [constructor|by eexists].
  - unfold getAprsForFarmGroup.
    destruct (request_farmsBulk w chainId g blockWeekAgo) as [resp|e] eqn:E; simpl.
    + rewrite IH. split.
      * intros H. constructor; [by exists resp|done].
      * by inversion 1.
    + split; [by intros [? ?]|].
      inversion 1 as [|? ? [resp Hresp] _]; subst. congruence.
Qed.

(** X4. The loop over the groups of addresses completes exactly when the
    request of every group is answered, whatever map it starts from. *)
Theorem groups_loop_completes_iff_all_answered (w : World) (groups : list (list string))
    (blockWeekAgo : option Z) (chainId : ChainId) (allAprs : AprMap) :
  (∃ aprs, fetchGroups w groups blockWeekAgo chainId allAprs = Ok aprs)
  ↔ Forall (groupAnswered w chainId blockWeekAgo) groups.
Proof. apply fetchGroups_completes. Qed.

(** X5. The loop stops at the first group whose request fails: it throws that
    request's error behind "Failed to fetch LP APR data: ", and the maps of
    the groups answered before it are lost with it. *)
Theorem groups_loop_throws_first_failure (w : World) (before after : list (list string))
    (g : list string) (blockWeekAgo : option Z) (chainId : ChainId) (allAprs : AprMap)
    (e : string) :
  Forall (groupAnswered w chainId blockWeekAgo) before ->
  request_farmsBulk w chainId g blockWeekAgo = Throw e ->
  fetchGroups w (before ++ g :: after) blockWeekAgo chainId allAprs
  = Throw (new_Error ("Failed to fetch LP APR data: " +:+ e)).
Proof.
  intros Hbefore Hg. revert allAprs.
  induction Hbefore as [|g0 before [resp Hresp] _ IH]; intros allAprs; simpl.
  - unfold getAprsForFarmGroup. by rewrite Hg.
  - unfold getAprsForFarmGroup. rewrite Hresp. simpl. apply IH.
Qed.

Lemma groups_loop_throws_first_failure_witness :
  fetchGroups Sample2.world_group_down
    ([[id Sample.farmA]] ++ [id Sample.farmB] :: [[id Sample.farmC]]) (Some 5001) BITGERT ∅
  = Throw (new_Error ("Failed to fetch LP APR data: " +:+ "Error: GraphQL Error (Code: 504)")).
Proof.
  apply (groups_loop_throws_first_failure Sample2.world_group_down
           [[id Sample.farmA]] [[id Sample.farmC]] [id Sample.farmB]).
  - constructor; [|constructor]. eexists. reflexivity.
  - reflexivity.
Defined.

(** ** The task of a chain as a whole *)

Lemma getFarmConfig_written w chainId st :
  written (snd (getFarmConfig w chainId st)) = written st.
Proof.
  destruct (import_farms w chainId) as [farms|e] eqn:E.
  - by rewrite (getFarmConfig_success _ _ _ _ E).
  - rewrite (getFarmConfig_failure _ _ _ _ E). by destruct (logged st).
Qed.

Lemma fetchAndUpdateChain_run w chainId st :
  ∃ st',
    fetchAndUpdateChain w chainId st = (chainResult w chainId, st') ∧
    written st' = match chainResult w chainId with
                  | Ok allAprs => written st ++ [(chainId, allAprs)]
                  | Throw _ => written st
                  end.
Proof.
  remember (chainResult w chainId) as r eqn:Hr.
  unfold fetchAndUpdateChain, mbind, M_bind.
  pose proof (getFarmConfig_result w chainId st) as Hcfg.
  pose proof (getFarmConfig_written w chainId st) as Hwr.
  destruct (getFarmConfig w chainId st) as [r0 st1]. simpl in Hcfg, Hwr. subst r0.
  fold (splitOf w chainId). cbn [console_log lift].
  unfold chainResult in Hr.
  destruct (getBlockAtTimestamp w (getWeekAgoTimestamp w) chainId) as [b|e] eqn:Eb.
  2:{ simpl in Hr. subst r. eexists. split; [reflexivity|]. done. }
  simpl in Hr.
  destruct (fetchGroups w _ b chainId ∅) as [normalAprs|e] eqn:Eg.
  2:{ simpl in Hr. subst r. eexists. split; [reflexivity|]. done. }
  simpl in Hr. subst r.
  unfold try_catch, writeFile, console_log, mret, M_ret.
  destruct (stableFarms (splitOf w chainId)) as [|f fs] eqn:Es.
  - eexists. unfold stableAprsMapOf. simpl. rewrite (left_id_L ∅ (∪)).
    split; [reflexivity|]. simpl. by rewrite Hwr.
  - match goal with
    | |- context [stableAprsOf w (f :: fs) chainId ?s] =>
        destruct (stableAprsOf_run w (f :: fs) chainId s) as (st3 & -> & _ & Hw3 & _)
    end.
    eexists. split; [reflexivity|]. simpl. by rewrite Hw3, <- Hwr.
Qed.

Lemma chainResult_completes w chainId :
  (∃ allAprs, chainResult w chainId = Ok allAprs)
  ↔ ∃ blockWeekAgo,
      getBlockAtTimestamp w (getWeekAgoTimestamp w) chainId = Ok blockWeekAgo ∧
      Forall (groupAnswered w chainId blockWeekAgo)
             (chunk (map (fun farm => toLowerCase (lpAddress farm))
                         (normalFarms (splitOf w chainId))) 30).
Proof.
  unfold chainResult.
  destruct (getBlockAtTimestamp w (getWeekAgoTimestamp w) chainId) as [b|e]; simpl.
  - pose proof (fetchGroups_completes w
                  (chunk (map (fun farm => toLowerCase (lpAddress farm))
                              (normalFarms (splitOf w chainId))) 30) b chainId ∅) as Hg.
    destruct (fetchGroups w _ b chainId ∅) as [normalAprs|e]; simpl.
    + split; [|by eexists]. intros _. exists b. split; [done|].
      apply Hg. by eexists.
    + split; [by intros [? ?]|]. intros (b' & [= <-] & Hall).
      apply Hg in Hall as [? ?]. done.
  - split; [by intros [? ?]|]. by intros (? & ? & _).
Qed.

(** X6. The task of a chain writes its file exactly when it completes: the map
    it returns is then appended to the files written, under its chain; a task
    that throws writes nothing. *)
Theorem chain_file_written_iff_task_completes (w : World) (chainId : ChainId) (st : State) :
  match fetchAndUpdateChain w chainId st with
  | (Ok allAprs, st') => written st' = written st ++ [(chainId, allAprs)]
  | (Throw _, st') => written st' = written st
  end.
Proof.
  destruct (fetchAndUpdateChain_run w chainId st) as (st' & -> & Hw).
  by destruct (chainResult w chainId).
Qed.

(** X7. The task of a chain completes exactly when the week-ago block is
    resolved and the request of every group of 30 lower-cased addresses of the
    normal farms is answered: a farm list that cannot be imported and stable
    farms that fail never make it throw, and the state it starts from has no
    part in it. *)
Theorem chain_task_completes_iff (w : World) (chainId : ChainId) (st : State) :
  (∃ allAprs st', fetchAndUpdateChain w chainId st = (Ok allAprs, st'))
  ↔ ∃ blockWeekAgo,
      getBlockAtTimestamp w (getWeekAgoTimestamp w) chainId = Ok blockWeekAgo ∧
      Forall (groupAnswered w chainId blockWeekAgo)
             (chunk (map (fun farm => toLowerCase (lpAddress farm))
                         (normalFarms (splitOf w chainId))) 30).
Proof.
  rewrite <- chainResult_completes.
  destruct (fetchAndUpdateChain_run w chainId st) as (st' & Hrun & _).
  rewrite Hrun. split.
  - intros (allAprs & st'' & H). exists allAprs. congruence.
  - intros [allAprs H]. exists allAprs, st'. by rewrite H.
Qed.

Lemma chainResult_without_config w chainId e blockWeekAgo :
  import_farms w chainId = Throw e ->
  getBlockAtTimestamp w (getWeekAgoTimestamp w) chainId = Ok blockWeekAgo ->
  chainResult w chainId = Ok ∅.
Proof.
  intros Himport Hblock. unfold chainResult, splitOf, farmConfigOf.
  rewrite Hblock, Himport. simpl. unfold stableAprsMapOf. simpl.
  by rewrite (left_id_L ∅ (∪)).
Qed.

(** X8. When the farm list of the chain cannot be imported and the week-ago
    block is resolved, the task completes and writes the empty map: the file
    of the chain is overwritten with no APR at all. *)
Theorem config_failure_writes_empty_map (w : World) (chainId : ChainId) (st : State)
    (e : string) (blockWeekAgo : option Z) :
  import_farms w chainId = Throw e ->
  getBlockAtTimestamp w (getWeekAgoTimestamp w) chainId = Ok blockWeekAgo ->
  ∃ st', fetchAndUpdateChain w chainId st = (Ok ∅, st') ∧
         written st' = written st ++ [(chainId, ∅)].
Proof.
  intros Himport Hblock.
  destruct (fetchAndUpdateChain_run w chainId st) as (st' & Hrun & Hw).
  rewrite (chainResult_without_config _ _ _ _ Himport Hblock) in Hrun, Hw.
  by exists st'.
Qed.

Lemma config_failure_writes_empty_map_witness :
  ∃ st', fetchAndUpdateChain Sample.world_without_config BITGERT initial_state = (Ok ∅, st') ∧
         written st' = written initial_state ++ [(BITGERT, ∅)].
Proof.
  apply (config_failure_writes_empty_map Sample.world_without_config BITGERT initial_state
           "Error: Cannot find module" (Some 5001)).
  - reflexivity.
  - reflexivity.
Defined.

Lemma stableAprsMapOf_lookup_last farms (v : SerializedFarmConfig -> BigNumber.t) k :
  stableAprsMapOf farms (map v farms) !! k
  = (fun f => BigNumber.decimalPlaces 5 (v f))
      <$> List.find (fun f => bool_decide (lpAddress f = k)) (rev farms).
Proof.
  rewrite stableAprsMapOf_map.
  rewrite (foldl_insert_lookup lpAddress (fun f => BigNumber.decimalPlaces 5 (v f))).
  rewrite lookup_empty. by destruct (List.find _ (rev farms)).
Qed.

(** X9. In the map of a completed task the stable farms come over the normal
    ones: a key that is the [lpAddress] of a stable farm holds the value of the
    last stable farm with that address, rounded to 5 places, whatever the
    groups returned for it; every other key holds what the groups returned. *)
Theorem stable_entries_override_normal (w : World) (chainId : ChainId) (st st' : State)
    (allAprs : AprMap) :
  fetchAndUpdateChain w chainId st = (Ok allAprs, st') ->
  ∃ blockWeekAgo normalAprs,
    getBlockAtTimestamp w (getWeekAgoTimestamp w) chainId = Ok blockWeekAgo ∧
    fetchGroups w (chunk (map (fun farm => toLowerCase (lpAddress farm))
                              (normalFarms (splitOf w chainId))) 30)
                blockWeekAgo chainId ∅ = Ok normalAprs ∧
    ∀ k, allAprs !! k =
         match List.find (fun f => bool_decide (lpAddress f = k))
                         (rev (stableFarms (splitOf w chainId))) with
         | Some f => Some (BigNumber.decimalPlaces 5 (stableAprValue w f chainId))
         | None => normalAprs !! k
         end.
Proof.
  intros Hrun.
  destruct (fetchAndUpdateChain_inv _ _ _ _ _ Hrun) as (b & normalAprs & Hb & Hg & ->).
  exists b, normalAprs. split; [done|]. split; [done|]. intros k.
  rewrite lookup_union, stableAprsMapOf_lookup_last.
  destruct (List.find _ (rev (stableFarms (splitOf w chainId)))); simpl.
  - by destruct (normalAprs !! k).
  - by rewrite (left_id_L None _).
Qed.

Lemma stable_entries_override_normal_witness :
  ∃ blockWeekAgo normalAprs,
    getBlockAtTimestamp Sample.world (getWeekAgoTimestamp Sample.world) BITGERT
      = Ok blockWeekAgo ∧
    fetchGroups Sample.world
                (chunk (map (fun farm => toLowerCase (lpAddress farm))
                            (normalFarms (splitOf Sample.world BITGERT))) 30)
                blockWeekAgo BITGERT ∅ = Ok normalAprs ∧
    ∀ k, sample_aprs !! k =
         match List.find (fun f => bool_decide (lpAddress f = k))
                         (rev (stableFarms (splitOf Sample.world BITGERT))) with
         | Some f => Some (BigNumber.decimalPlaces 5 (stableAprValue Sample.world f BITGERT))
         | None => normalAprs !! k
         end.
Proof.
  exact (stable_entries_override_normal Sample.world BITGERT initial_state sample_state
           sample_aprs sample_run).
Defined.

(** ** Decimal places of what is written *)

Lemma fetchGroups_Forall (P : BigNumber.t -> Prop) w groups blockWeekAgo chainId
    (allAprs aprs : AprMap) :
  (∀ resp, map_Forall (fun _ v => P v) (aprsOfResponse resp)) ->
  map_Forall (fun _ v => P v) allAprs ->
  fetchGroups w groups blockWeekAgo chainId allAprs = Ok aprs ->
  map_Forall (fun _ v => P v) aprs.
Proof.
  intros Hresp. revert allAprs.
  induction groups as [|g groups IH]; intros allAprs Hall; simpl.
  - by intros [= <-].
  - unfold getAprsForFarmGroup.
    destruct (request_farmsBulk w chainId g blockWeekAgo) as [resp|e]; simpl; [|done].
    apply IH. by apply union_Forall.
Qed.

Lemma placesAtMost_le dp dp' v : (dp <= dp')%nat -> placesAtMost dp v -> placesAtMost dp' v.
Proof. intros Hle. destruct v; simpl; [done..|lia]. Qed.

(** X10. No value of the map of a completed task has more than 5 decimal
    places: the values are NaN, an infinity, or a decimal of at most 5 places
    (2 for a normal farm). *)
Theorem written_values_have_at_most_5_places (w : World) (chainId : ChainId) (st st' : State)
    (allAprs : AprMap) :
  fetchAndUpdateChain w chainId st = (Ok allAprs, st') ->
  map_Forall (fun _ v => placesAtMost 5 v) allAprs.
Proof.
  intros Hrun.
  destruct (fetchAndUpdateChain_inv _ _ _ _ _ Hrun) as (b & normalAprs & _ & Hg & ->).
  apply union_Forall.
  - rewrite stableAprsMapOf_map.
    apply (foldl_insert_Forall lpAddress
             (fun f => BigNumber.decimalPlaces 5 (stableAprValue w f chainId))
             (placesAtMost 5)); [apply map_Forall_empty|].
    apply Forall_forall. intros f _. apply decimalPlaces_placesAtMost.
  - eapply (fetchGroups_Forall (placesAtMost 5)); [|apply map_Forall_empty|exact Hg].
    intros resp. apply aprsOfResponse_Forall, Forall_forall. intros farm _.
    apply (placesAtMost_le 2); [lia|apply decimalPlaces_placesAtMost].
Qed.

Lemma written_values_have_at_most_5_places_witness :
  map_Forall (fun _ v => placesAtMost 5 v) sample_aprs.
Proof.
  exact (written_values_have_at_most_5_places Sample.world BITGERT initial_state sample_state
           sample_aprs sample_run).
Defined.

(** X11. The script runs the task of one chain, 32520: whatever the services
    answer it writes at most one file, the one of that chain, and it writes it
    exactly when that task completes. *)
Theorem script_writes_at_most_one_file (w : World) (st : State) :
  FETCH_CHAIN_ID = [BITGERT] ∧ chain_number BITGERT = 32520 ∧
  written (fetchAndUpdateLPsAPR w st)
  = written st ++ match fst (fetchAndUpdateChain w BITGERT st) with
                  | Ok allAprs => [(BITGERT, allAprs)]
                  | Throw _ => []
                  end.
Proof.
  split; [done|]. split; [done|].
  unfold fetchAndUpdateLPsAPR. simpl.
  destruct (fetchAndUpdateChain_run w BITGERT st) as (st' & -> & Hw). simpl.
  rewrite Hw. destruct (chainResult w BITGERT); [done|by rewrite app_nil_r].
Qed.

(** ** The groups of addresses *)

Section ChunkGroups.

Context {A : Type}.

Lemma chunk_fuel_lookup (size fuel : nat) (l : list A) (i : nat) :
  (0 < size)%nat -> (length l <= fuel)%nat ->
  chunk_fuel fuel l size !! i
  = if decide (i * size < length l)%nat then Some (take size (drop (i * size) l)) else None.
Proof.
  intros Hsize. revert l i. induction fuel as [|fuel IH]; intros l i Hlen.
  - destruct l; cbn [length] in *; [|lia]. cbn [chunk_fuel].
    rewrite lookup_nil. case_decide; [lia|done].
  - destruct l as [|x l].
    { cbn [chunk_fuel length]. rewrite lookup_nil. case_decide; [lia|done]. }
    cbn [chunk_fuel]. destruct i as [|i].
    + cbn [lookup list_lookup]. rewrite Nat.mul_0_l, drop_0.
      case_decide; [done|cbn [length] in *; lia].
    + rewrite lookup_cons_ne_0 by done. cbn [Nat.pred]. rewrite IH.
      2:{ rewrite length_drop. cbn [length] in *. lia. }
      rewrite length_drop, drop_drop.
      replace (size + i * size)%nat with (S i * size)%nat by lia.
      repeat case_decide; try done; lia.
Qed.

Lemma chunk_lookup (l : list A) (size i : nat) :
  (0 < size)%nat ->
  chunk l size !! i
  = if decide (i * size < length l)%nat then Some (take size (drop (i * size) l)) else None.
Proof.
  intros Hsize. unfold chunk. destruct size; [lia|]. by apply chunk_fuel_lookup.
Qed.

End ChunkGroups.

(** X12. The groups of a list are its consecutive slices: for a positive size
    the group of index [i] holds the elements from position [i * size] on, up
    to [size] of them, and there is such a group exactly when that position
    lies within the list; no element is left out or asked for twice. *)
Theorem chunk_groups_are_consecutive_slices {A : Type} (l : list A) (size : nat) :
  (0 < size)%nat ->
  (∀ i, chunk l size !! i
        = if decide (i * size < length l)%nat
          then Some (take size (drop (i * size) l)) else None) ∧
  concat (chunk l size) = l.
Proof.
  intros Hsize. split; [intros i; by apply chunk_lookup|by apply concat_chunk].
Qed.

Lemma chunk_groups_are_consecutive_slices_witness :
  (∀ i, chunk ["a"; "b"; "c"; "d"; "e"] 2 !! i
        = if decide (i * 2 < length ["a"; "b"; "c"; "d"; "e"])%nat
          then Some (take 2 (drop (i * 2) ["a"; "b"; "c"; "d"; "e"])) else None) ∧
  concat (chunk ["a"; "b"; "c"; "d"; "e"] 2) = ["a"; "b"; "c"; "d"; "e"].
Proof.
  apply (chunk_groups_are_consecutive_slices ["a"; "b"; "c"; "d"; "e"] 2). lia.
Defined.



(** ** Edge cases of the stable-farm computation *)

Section StableEdges.

Variables (w : World) (stableFarm : SerializedFarmConfig) (chainId : ChainId).
Variables (blockDayAgo : option Z) (resp : VirtualPriceResponse).
Variables (vl vd : BigNumber.decimal).

Hypothesis Hblock : getBlockAtTimestamp w (now w - 86400) chainId = Ok blockDayAgo.
Hypothesis Hreq :
  request_virtualPriceStableSwap w (stableSwapAddress stableFarm) blockDayAgo = Ok resp.
Hypothesis Hvl : BigNumber.of_field (firstVirtualPrice (virtualPriceAtLatestBlock resp)) = Fin vl.
Hypothesis Hvd : BigNumber.of_field (firstVirtualPrice (virtualPriceOneDayAgo resp)) = Fin vd.

Lemma stableAprAttempt_prices :
  stableAprAttempt w stableFarm chainId
  = Ok (BigNumber.minus (BigNumber.pow (BigNumber.dividedBy (Fin vl) (Fin vd)) 365)
                        (BigNumber.of_Z 1)).
Proof.
  unfold stableAprAttempt. rewrite Hblock. unfold mbind, Result_bind. rewrite Hreq.
  cbv zeta. by rewrite Hvl, Hvd.
Qed.

Lemma to_Q_nonzero (d : BigNumber.decimal) :
  BigNumber.mant d <> 0 -> ~ (BigNumber.to_Q d == 0)%Q.
Proof.
  intros Hd E. destruct d as [m s]. rewrite to_Q_make in E.
  unfold Qeq in E. simpl in *. lia.
Qed.

Lemma stableAprAttempt_unchanged :
  BigNumber.mant vd <> 0 -> (BigNumber.to_Q vl == BigNumber.to_Q vd)%Q ->
  stableAprAttempt w stableFarm chainId = Ok BigNumber.zero.
Proof.
  intros Hvd0 Heq. rewrite stableAprAttempt_prices, (dividedBy_finite vl vd Hvd0).
  rewrite (round_Q_proper 20 _ 1).
  2:{ rewrite Heq. field. by apply to_Q_nonzero. }
  reflexivity.
Qed.


End StableEdges.

(** X14. A stable farm whose virtual price is the same number at both blocks,
    and not zero, gets exactly 0. *)
Theorem stable_apr_zero_when_price_unchanged (w : World) (stableFarm : SerializedFarmConfig)
    (chainId : ChainId) (blockDayAgo : option Z) (resp : VirtualPriceResponse)
    (vl vd : BigNumber.decimal) (st : State) :
  getBlockAtTimestamp w (now w - 86400) chainId = Ok blockDayAgo ->
  request_virtualPriceStableSwap w (stableSwapAddress stableFarm) blockDayAgo = Ok resp ->
  BigNumber.of_field (firstVirtualPrice (virtualPriceAtLatestBlock resp)) = Fin vl ->
  BigNumber.of_field (firstVirtualPrice (virtualPriceOneDayAgo resp)) = Fin vd ->
  BigNumber.mant vd <> 0 ->
  (BigNumber.to_Q vl == BigNumber.to_Q vd)%Q ->
  getAprsForStableFarm w stableFarm chainId st = (Ok BigNumber.zero, st).
Proof.
  intros Hblock Hreq Hvl Hvd Hvd0 Heq.
  apply getAprsForStableFarm_returns.
  by apply (stableAprAttempt_unchanged w stableFarm chainId blockDayAgo resp vl vd).
Qed.

Lemma stable_apr_zero_when_price_unchanged_witness :
  getAprsForStableFarm (Sample.world_with_prices (Ok (Sample.prices ["1.0275"] ["1.02750"])))
    Sample.stableFarm BITGERT initial_state
  = (Ok BigNumber.zero, initial_state).
Proof.
  apply (stable_apr_zero_when_price_unchanged
           (Sample.world_with_prices (Ok (Sample.prices ["1.0275"] ["1.02750"])))
           Sample.stableFarm BITGERT (Some 33800)
           (Sample.prices ["1.0275"] ["1.02750"]) (Dec 10275 4) (Dec 10275 4)).
  - reflexivity.
  - reflexivity.
  - reflexivity.
  - reflexivity.
  - discriminate.
  - reflexivity.
Defined.



(** ** Duplicate ids in a snapshot *)

Lemma find_rev_last {A : Type} (p : A -> bool) (l1 l2 : list A) (x : A) :
  p x = true -> Forall (fun y => p y = false) l2 ->
  List.find p (rev (l1 ++ x :: l2)) = Some x.
Proof.
  intros Hx Hl2. rewrite rev_app_distr. simpl. rewrite <- app_assoc. simpl.
  assert (List.find p (rev l2) = None) as Hnone.
  { destruct (List.find p (rev l2)) as [y|] eqn:E; [|done].
    apply find_some in E as [Hin Hy]. apply in_rev in Hin.
    rewrite Forall_forall in Hl2. apply list_elem_of_In, Hl2 in Hin. congruence. }
  clear Hl2. induction (rev l2) as [|y l IH]; simpl in *; [by rewrite Hx|].
  destruct (p y); [done|]. by apply IH.
Qed.

(** X16. When the latest snapshot holds several entries under one id, the key
    gets the value of the last of them; the week-ago entry it is compared with
    is the first one of that snapshot under the id. *)
Theorem last_duplicate_decides_the_key (w : World) (addresses : list string)
    (blockWeekAgo : option Z) (chainId : ChainId) (resp : FarmsResponse)
    (earlier later : list SingleFarmResponse) (farm : SingleFarmResponse) :
  request_farmsBulk w chainId addresses blockWeekAgo = Ok resp ->
  farmsAtLatestBlock resp = earlier ++ farm :: later ->
  Forall (fun other => id other ≠ id farm) later ->
  ∃ aprs : AprMap,
    getAprsForFarmGroup w addresses blockWeekAgo chainId = Ok aprs ∧
    aprs !! id farm
    = Some (BigNumber.decimalPlaces 2
              (match List.find (has_id (id farm)) (farmsOneWeekAgo resp) with
               | Some farmWeekAgo =>
                   if BigNumber.gt0 (lpFeesInAYear farm farmWeekAgo)
                   then BigNumber.dividedBy
                          (BigNumber.times (lpFeesInAYear farm farmWeekAgo) (BigNumber.of_Z 100))
                          (BigNumber.of_string (reserveUSD farm))
                   else BigNumber.zero
               | None => BigNumber.zero
               end)).
Proof.
  intros Hreq Hlatest Hlater.
  unfold getAprsForFarmGroup. rewrite Hreq. eexists. split; [done|].
  rewrite aprsOfResponse_lookup, Hlatest.
  rewrite (find_rev_last (has_id (id farm)) earlier later farm).
  - reflexivity.
  - unfold has_id. by apply bool_decide_eq_true_2.
  - eapply Forall_impl; [exact Hlater|]. intros other Hne. unfold has_id.
    by apply bool_decide_eq_false_2.
Qed.

Lemma last_duplicate_decides_the_key_witness :
  ∃ aprs : AprMap,
    getAprsForFarmGroup Sample2.world_duplicates [id Sample.farmA; id Sample.farmB]
      (Some 5001) BITGERT = Ok aprs ∧
    aprs !! id Sample.farmA
    = Some (BigNumber.decimalPlaces 2
              (match List.find (has_id (id Sample.farmA))
                               (farmsOneWeekAgo Sample2.duplicates) with
               | Some farmWeekAgo =>
                   if BigNumber.gt0 (lpFeesInAYear Sample.farmA farmWeekAgo)
                   then BigNumber.dividedBy
                          (BigNumber.times (lpFeesInAYear Sample.farmA farmWeekAgo)
                                           (BigNumber.of_Z 100))
                          (BigNumber.of_string (reserveUSD Sample.farmA))
                   else BigNumber.zero
               | None => BigNumber.zero
               end)).
Proof.
  apply (last_duplicate_decides_the_key Sample2.world_duplicates
           [id Sample.farmA; id Sample.farmB] (Some 5001) BITGERT Sample2.duplicates
           [Sample2.farmA_stale; Sample.farmB] [] Sample.farmA).
  - reflexivity.
  - reflexivity.
  - constructor.
Defined.

(** ** A virtual price that did not fall *)

Lemma round_div_at_least n (d p : Z) : 0 < d -> 0 < p -> d <= n -> p <= BigNumber.round_div (n * p) d.
Proof.
  intros Hd Hp Hn. unfold BigNumber.round_div.
  rewrite (Z.sgn_pos d), (Z.sgn_pos (n * p)), (Z.abs_eq d), (Z.abs_eq (n * p)) by nia.
  rewrite !Z.mul_1_l. apply Z.div_le_lower_bound; nia.
Qed.

Lemma round_Q_at_least_1 dp (q : Q) : (1 <= q)%Q -> (1 <= BigNumber.to_Q (round_Q dp q))%Q.
Proof.
  intros Hq. unfold round_Q. rewrite to_Q_normalize. unfold BigNumber.to_Q. simpl.
  pose proof (pow10_pos dp) as Hp.
  assert (Z.pos (Qden q) <= Qnum q) as Hn by (unfold Qle in Hq; simpl in Hq; lia).
  pose proof (round_div_at_least (Qnum q) (Z.pos (Qden q)) (BigNumber.pow10 dp)
                ltac:(lia) Hp Hn) as Hr.
  apply Qle_shift_div_l.
  - change 0%Q with (inject_Z 0). rewrite <- Zlt_Qlt. exact Hp.
  - rewrite Qmult_1_l, <- Zle_Qle. exact Hr.
Qed.

(** X17. A stable farm whose virtual price did not fall over the day, the
    day-ago price being above zero, never gets a negative value: the function
    returns a finite number that is 0 or more. *)
Theorem stable_apr_not_negative_when_price_holds (w : World)
    (stableFarm : SerializedFarmConfig) (chainId : ChainId) (blockDayAgo : option Z)
    (resp : VirtualPriceResponse) (vl vd : BigNumber.decimal) (st : State) :
  getBlockAtTimestamp w (now w - 86400) chainId = Ok blockDayAgo ->
  request_virtualPriceStableSwap w (stableSwapAddress stableFarm) blockDayAgo = Ok resp ->
  BigNumber.of_field (firstVirtualPrice (virtualPriceAtLatestBlock resp)) = Fin vl ->
  BigNumber.of_field (firstVirtualPrice (virtualPriceOneDayAgo resp)) = Fin vd ->
  0 < BigNumber.mant vd ->
  (BigNumber.to_Q vd <= BigNumber.to_Q vl)%Q ->
  ∃ apr : BigNumber.decimal,
    getAprsForStableFarm w stableFarm chainId st = (Ok (Fin apr), st) ∧
    (0 <= BigNumber.to_Q apr)%Q.
Proof.
  intros Hblock Hreq Hvl Hvd Hpos Hle.
  destruct (stableAprAttempt_finite w stableFarm chainId blockDayAgo resp vl vd
              Hblock Hreq Hvl Hvd ltac:(lia)) as (apr & Hattempt & Qapr).
  exists apr. split; [by apply getAprsForStableFarm_returns|].
  rewrite Qapr. unfold stableAprFormula.
  assert (0 < BigNumber.to_Q vd)%Q as Hvd_pos.
  { destruct vd as [m s]. rewrite to_Q_make. unfold Qlt. simpl in *. lia. }
  assert (1 <= BigNumber.to_Q vl / BigNumber.to_Q vd)%Q as Hratio.
  { apply Qle_shift_div_l; [done|]. by rewrite Qmult_1_l. }
  pose proof (Qpower_1_le _ 365 (round_Q_at_least_1 20 _ Hratio) ltac:(lia)) as Hpow.
  apply (Qplus_le_l _ _ 1). by ring_simplify.
Qed.

Lemma stable_apr_not_negative_when_price_holds_witness :
  ∃ apr : BigNumber.decimal,
    getAprsForStableFarm Sample.world Sample.stableFarm BITGERT initial_state
      = (Ok (Fin apr), initial_state) ∧
    (0 <= BigNumber.to_Q apr)%Q.
Proof.
  apply (stable_apr_not_negative_when_price_holds Sample.world Sample.stableFarm BITGERT
           (Some 33800) (Sample.prices ["1.01"] ["1"]) (Dec 101 2) (Dec 1 0)).
  - reflexivity.
  - reflexivity.
  - reflexivity.
  - reflexivity.
  - reflexivity.
  - vm_compute. discriminate.
Defined.

(** ** A chain without a blocks endpoint *)

(** X18. For a chain without a blocks endpoint the task throws the error of the
    block resolver, which names the week-ago timestamp and the chain, and no
    file is written, whatever the farm list and the other services give. *)
Theorem chain_task_throws_without_blocks_endpoint (w : World) (chainId : ChainId)
    (st : State) :
  BLOCKS_CLIENT_WITH_CHAIN w chainId = None ->
  ∃ st',
    fetchAndUpdateChain w chainId st
    = (Throw (new_Error ("Failed to fetch block number for " +:+ pretty (now w - 604800)
                         +:+ EOL +:+
                         new_Error ("missing block client for chainId "
                                    +:+ pretty (chain_number chainId)))), st') ∧
    written st' = written st.
Proof.
  intros Hnone.
  destruct (fetchAndUpdateChain_run w chainId st) as (st' & Hrun & Hw).
  assert (chainResult w chainId
          = Throw (new_Error ("Failed to fetch block number for " +:+ pretty (now w - 604800)
                              +:+ EOL +:+
                              new_Error ("missing block client for chainId "
                                         +:+ pretty (chain_number chainId))))) as Hres.
  { unfold chainResult, getBlockAtTimestamp, getWeekAgoTimestamp. by rewrite Hnone. }
  rewrite Hres in Hrun, Hw. by exists st'.
Qed.

Lemma chain_task_throws_without_blocks_endpoint_witness :
  ∃ st',
    fetchAndUpdateChain Sample2.world_without_blocks BITGERT initial_state
    = (Throw (new_Error ("Failed to fetch block number for "
                         +:+ pretty (now Sample2.world_without_blocks - 604800)
                         +:+ EOL +:+
                         new_Error ("missing block client for chainId "
                                    +:+ pretty (chain_number BITGERT)))), st') ∧
    written st' = written initial_state.
Proof.
  apply (chain_task_throws_without_blocks_endpoint Sample2.world_without_blocks BITGERT
           initial_state).
  reflexivity.
Defined.
